(** * dataframe.py: a columnar table read from delimited text

    A shallow embedding of [src/dataframe.py] (class [DataFrame], the helper
    [convert_value] and the reader [read_csv]) and the properties of it that
    the specification states.

    Conventions of the embedding.
    - A Python [str] is a [list ascii]; a character is a code point in
      0..255.  A string literal is written with [str].
    - A Python [dict] is an insertion-ordered association list whose keys
      are compared the way a dict compares them (identity or [==]).
    - A Python exception is a value of [exn]; a function that may raise
      returns a [result].
    - The builtins the source calls ([re], [str.strip], [str.replace],
      [int], [float], [dict]) are embedded from the behaviour of CPython. *)

From Stdlib Require Import String Ascii ZArith Lia Bool Arith PeanoNat Sorted List.
Import ListNotations.

(** ** Strings *)

Definition pystr := list ascii.

Definition str (s : string) : pystr := list_ascii_of_string s.

Definition code (c : ascii) : nat := nat_of_ascii c.

Definition chr_eqb (a b : ascii) : bool := Ascii.eqb a b.

Definition quote_c : ascii := ascii_of_nat 34.
Definition comma_c : ascii := ascii_of_nat 44.
Definition lf_c : ascii := ascii_of_nat 10.
Definition cr_c : ascii := ascii_of_nat 13.

Definition is_quote (c : ascii) : bool := chr_eqb c quote_c.
Definition is_comma (c : ascii) : bool := chr_eqb c comma_c.

(** [str.isspace] of one character, which is also the class [\s] of a
    [str] pattern and the set [str.strip()] removes: TAB, LF, VT, FF, CR,
    FS, GS, RS, US, SPACE, NEL and NBSP below code point 256. *)
Definition is_space (c : ascii) : bool :=
  let n := code c in
  ((9 <=? n) && (n <=? 13)) || ((28 <=? n) && (n <=? 32))
  || (n =? 133) || (n =? 160).

Fixpoint lstrip (s : pystr) : pystr :=
  match s with
  | c :: t => if is_space c then lstrip t else s
  | [] => []
  end.

Definition rstrip (s : pystr) : pystr := rev (lstrip (rev s)).

(** [val.strip()] *)
Definition strip (s : pystr) : pystr := rstrip (lstrip s).

Fixpoint lstrip_nl (s : pystr) : pystr :=
  match s with
  | c :: t => if chr_eqb c lf_c || chr_eqb c cr_c then lstrip_nl t else s
  | [] => []
  end.

(** [line.rstrip] of the characters LF and CR. *)
Definition rstrip_nl (s : pystr) : pystr := rev (lstrip_nl (rev s)).

(** [val.replace] of two double quotes by one: the occurrences are found
    from the left and do not overlap. *)
Fixpoint replace_dq (s : pystr) : pystr :=
  match s with
  | a :: t =>
      match t with
      | b :: r => if is_quote a && is_quote b then quote_c :: replace_dq r
                  else a :: replace_dq t
      | [] => [a]
      end
  | [] => []
  end.

(** ** The regular expression engine

    [re] matches by backtracking: alternatives are tried left to right and
    a star is greedy.  The matcher is written in continuation-passing
    style; the continuation receives the rest of the input and the groups
    captured so far, and a [None] from it makes the matcher try its next
    choice. *)

Inductive regex : Type :=
| Cls (p : ascii -> bool)      (* one character of a class *)
| Cat (a b : regex)            (* a b *)
| Alt (a b : regex)            (* a|b *)
| Star (a : regex)             (* a* *)
| Grp (i : nat) (a : regex)    (* (a), capture group i *)
| Eos.                         (* $ *)

Definition caps := nat -> option pystr.

Definition no_caps : caps := fun _ => None.

Definition set_cap (c : caps) (i : nat) (s : pystr) : caps :=
  fun j => if j =? i then Some s else c j.

Definition orelse {A} (x y : option A) : option A :=
  match x with Some _ => x | None => y end.

Section Matcher.
Variable R : Type.

Definition cont := pystr -> caps -> option R.

(** Greedy star: at most [n] rounds of [body], each of which has to
    consume input (the bodies starred in [pattern] are one or two
    characters long, so [length s] rounds are all there can be). *)
Fixpoint star_loop (body : pystr -> caps -> cont -> option R) (n : nat)
    (s : pystr) (c : caps) (k : cont) : option R :=
  match n with
  | O => k s c
  | S n' =>
      orelse
        (body s c (fun s' c' =>
           if length s' <? length s then star_loop body n' s' c' k
           else None))
        (k s c)
  end.

Fixpoint rmatch (r : regex) (s : pystr) (c : caps) (k : cont) : option R :=
  match r with
  | Cls p =>
      match s with
      | a :: t => if p a then k t c else None
      | [] => None
      end
  | Cat a b => rmatch a s c (fun s' c' => rmatch b s' c' k)
  | Alt a b => orelse (rmatch a s c k) (rmatch b s c k)
  | Star a => star_loop (rmatch a) (length s) s c k
  | Grp i a =>
      rmatch a s c (fun s' c' =>
        k s' (set_cap c' i (firstn (length s - length s') s)))
  | Eos =>
      match s with
      | [] => k s c
      | [a] => if chr_eqb a lf_c then k s c else None
      | _ => None
      end
  end.
End Matcher.

Arguments star_loop {R} body n s c k.
Arguments rmatch {R} r s c k.

(** One match of [finditer]: where it ends (the rest of the line after
    it), whether it was empty, and its groups. *)
Record rmatch_result : Type := MkMatch {
  m_rest : pystr;
  m_empty : bool;
  m_caps : caps
}.

(** A match starting exactly at [s].  [must_advance] is set by [finditer]
    after an empty match: an empty match at the same place is then refused
    and the engine backtracks. *)
Definition match_here (r : regex) (must_advance : bool) (s : pystr)
  : option rmatch_result :=
  rmatch r s no_caps (fun s' c =>
    let empty := length s' =? length s in
    if must_advance && empty then None else Some (MkMatch s' empty c)).

(** [pattern.search] from [s] on: the leftmost start that matches.
    [must_advance] only concerns the first start. *)
Fixpoint search (r : regex) (must_advance : bool) (s : pystr)
  : option rmatch_result :=
  match match_here r must_advance s with
  | Some m => Some m
  | None =>
      match s with
      | _ :: t => search r false t
      | [] => None
      end
  end.

(** [pattern.finditer(line)]: the successive matches, each search starting
    where the previous match ended.  A match either consumes input or is
    empty and makes the next one consume input, so a line of [n]
    characters has at most [2 * n + 2] matches: [fuel] bounds the
    recursion and never cuts the matches short ([finditer_fuel_enough]). *)
Fixpoint finditer_loop (fuel : nat) (r : regex) (must_advance : bool)
    (s : pystr) : list rmatch_result :=
  match fuel with
  | O => []
  | S fuel' =>
      match search r must_advance s with
      | None => []
      | Some m => m :: finditer_loop fuel' r (m_empty m) (m_rest m)
      end
  end.

Definition finditer (r : regex) (s : pystr) : list rmatch_result :=
  finditer_loop (2 * length s + 2) r false s.

(** ** The tokenizer of [read_csv] *)

(** The body of the first group of [pattern]: a character that is not a
    double quote, or two double quotes. *)
Definition quoted_body : regex :=
  Alt (Cls (fun c => negb (is_quote c))) (Cat (Cls is_quote) (Cls is_quote)).

(** The class of the second group of [pattern]: neither a double quote
    nor a comma. *)
Definition unquoted_char (c : ascii) : bool := negb (is_quote c || is_comma c).

(** The pattern of [read_csv], compiled with [re.VERBOSE].  Writing Q for
    the double quote and S for the class of white space, it is
    [S* (?: Q ( (?: [^Q] | QQ )* ) Q | ( [^Q,]* ) ) S* (?: , | $ )]: the
    comma is part of the pattern text. *)
Definition pattern : regex :=
  Cat (Star (Cls is_space))
   (Cat (Alt (Cat (Cls is_quote)
               (Cat (Grp 1 (Star quoted_body)) (Cls is_quote)))
             (Grp 2 (Star (Cls unquoted_char))))
        (Cat (Star (Cls is_space))
             (Alt (Cls is_comma) Eos))).

(** The truth value [or] tests: [None] and the empty string are false. *)
Definition truthy (g : option pystr) : option pystr :=
  match g with
  | Some (_ :: _) => g
  | _ => None
  end.

(** [m.group(1) or m.group(2) or] the empty string. *)
Definition group_or (m : rmatch_result) : pystr :=
  match truthy (m_caps m 1) with
  | Some v => v
  | None => match truthy (m_caps m 2) with
            | Some v => v
            | None => []
            end
  end.

(** The text of one field: [val.replace(...).strip()]. *)
Definition field_text (m : rmatch_result) : pystr :=
  strip (replace_dq (group_or m)).

(** The raw fields of one line, before [convert_value]. *)
Definition raw_fields (line : pystr) : list pystr :=
  map field_text (finditer pattern line).

(** ** Values

    The cells of a table that [read_csv] builds are Python [int], [float]
    and [str] objects.  A [float] is a binary64 number; a finite non-zero
    one is [(-1)^neg * m * 2^e].  A NaN carries the identity [oid] of its
    object, because a dict finds a NaN key by identity only. *)

Definition objid : Type := (nat * nat)%type.

Inductive pyfloat : Type :=
| FFinite (neg : bool) (m : positive) (e : Z)
| FZero (neg : bool)
| FInf (neg : bool)
| FNaN (neg : bool) (oid : objid).

Inductive Value : Type :=
| VInt (z : Z)
| VFloat (f : pyfloat)
| VText (s : pystr).

(** What a dict compares of a key.  An [int] and a [float] are equal when
    they are the same number, so a float with an integral value and the
    int of that value have one key; a text is equal to a text only. *)
Inductive dkey : Type :=
| KInt (z : Z)
| KFrac (neg : bool) (m : positive) (e : Z)
| KInf (neg : bool)
| KNaN (oid : objid)
| KText (s : pystr).

(** [m * 2^e] with the factors two of [m] moved into a negative [e]. *)
Fixpoint reduce_frac (m : positive) (e : Z) : positive * Z :=
  match m with
  | xO m' => if (e <? 0)%Z then reduce_frac m' (e + 1)%Z else (m, e)
  | _ => (m, e)
  end.

Definition key_of_float (f : pyfloat) : dkey :=
  match f with
  | FFinite neg m e =>
      let (m', e') := reduce_frac m e in
      if (0 <=? e')%Z then
        let a := (Zpos m' * 2 ^ e')%Z in
        KInt (if neg then - a else a)%Z
      else KFrac neg m' e'
  | FZero _ => KInt 0
  | FInf neg => KInf neg
  | FNaN _ oid => KNaN oid
  end.

Definition key_of (v : Value) : dkey :=
  match v with
  | VInt z => KInt z
  | VFloat f => key_of_float f
  | VText s => KText s
  end.

Definition dkey_eq_dec (a b : dkey) : {a = b} + {a <> b}.
Proof.
  decide equality;
    try apply Z.eq_dec; try apply Pos.eq_dec; try apply Bool.bool_dec;
    try apply (list_eq_dec ascii_dec);
    decide equality; apply Nat.eq_dec.
Defined.

(** Whether a dict takes [a] and [b] for the same key. *)
Definition key_match (a b : Value) : bool :=
  if dkey_eq_dec (key_of a) (key_of b) then true else false.

(** ** [int(val)] and [float(val)] *)

Definition is_digit (c : ascii) : bool := (48 <=? code c) && (code c <=? 57).

Definition is_underscore (c : ascii) : bool := code c =? 95.

(** The white space [int] and [float] skip around a number: the C locale's
    TAB, LF, VT, FF, CR and SPACE, and NEL and NBSP, which are turned into
    a space beforehand. *)
Definition is_num_space (c : ascii) : bool :=
  let n := code c in
  ((9 <=? n) && (n <=? 13)) || (n =? 32) || (n =? 133) || (n =? 160).

Fixpoint skip_num_space (s : pystr) : pystr :=
  match s with
  | c :: t => if is_num_space c then skip_num_space t else s
  | [] => []
  end.

Definition digit_val (c : ascii) : Z := Z.of_nat (code c - 48).

Definition Z_of_digits (ds : pystr) : Z :=
  fold_left (fun acc c => (10 * acc + digit_val c)%Z) ds 0%Z.

(** The sign of a number: [(negative, rest)]. *)
Definition take_sign (s : pystr) : bool * pystr :=
  match s with
  | c :: t => if code c =? 45 then (true, t)
              else if code c =? 43 then (false, t)
              else (false, s)
  | [] => (false, s)
  end.

(** The digits of an integer literal, in which single underscores may
    stand between digits: [(digits, rest)].  [prev] tells that the
    previous character was an underscore. *)
Fixpoint scan_int_digits (prev : bool) (acc : pystr) (s : pystr)
  : option (pystr * pystr) :=
  match s with
  | c :: t =>
      if is_digit c then scan_int_digits false (c :: acc) t
      else if is_underscore c then
        if prev then None else scan_int_digits true acc t
      else if prev then None else Some (rev acc, s)
  | [] => if prev then None else Some (rev acc, s)
  end.

(** [sys.get_int_max_str_digits()], at its default. *)
Definition int_max_str_digits : nat := 4300.

(** [int(val)] in base 10; [None] is [ValueError]. *)
Definition py_int (val : pystr) : option Z :=
  let (neg, body) := take_sign (skip_num_space val) in
  match body with
  | c :: _ =>
      if is_underscore c then None
      else
        match scan_int_digits false [] body with
        | Some (d :: ds, rest) =>
            match skip_num_space rest with
            | [] =>
                if int_max_str_digits <? length (d :: ds) then None
                else Some (if neg then - Z_of_digits (d :: ds)
                           else Z_of_digits (d :: ds))%Z
            | _ :: _ => None
            end
        | _ => None
        end
  | [] => None
  end.

(** Round to nearest, ties to even, of [num / den]. *)
Definition round_half_even (num den : Z) : Z :=
  let q := (num / den)%Z in
  let r := (num mod den)%Z in
  if (2 * r <? den)%Z then q
  else if (den <? 2 * r)%Z then (q + 1)%Z
  else if Z.even q then q else (q + 1)%Z.

(** The binary64 number nearest to [p / q]. *)
Definition float_of_ratio (neg : bool) (p q : positive) : pyfloat :=
  let e0 := (Z.log2 (Zpos p) - Z.log2 (Zpos q) - 52)%Z in
  let scaled (e : Z) : Z * Z :=
    if (0 <=? e)%Z then (Zpos p, Zpos q * 2 ^ e)%Z
    else (Zpos p * 2 ^ (- e), Zpos q)%Z in
  let e1 := let (n, d) := scaled e0 in
            if (n / d <? 2 ^ 52)%Z then (e0 - 1)%Z else e0 in
  let e := Z.max e1 (-1074) in
  let (n, d) := scaled e in
  let m := round_half_even n d in
  let (m', e') := if (m =? 2 ^ 53)%Z then (2 ^ 52, e + 1)%Z else (m, e) in
  match m' with
  | Zpos mp => if (971 <? e')%Z then FInf neg else FFinite neg mp e'
  | _ => FZero neg
  end.

(** The binary64 number nearest to [(-1)^neg * m * 10^e]. *)
Definition float_of_decimal (neg : bool) (m : Z) (e : Z) : pyfloat :=
  match m with
  | Zpos mp =>
      if (0 <=? e)%Z then float_of_ratio neg (Z.to_pos (Zpos mp * 10 ^ e)) 1
      else float_of_ratio neg mp (Z.to_pos (10 ^ (- e)))
  | _ => FZero neg
  end.

Fixpoint span_digits (s : pystr) : pystr * pystr :=
  match s with
  | c :: t => if is_digit c then let (ds, r) := span_digits t in (c :: ds, r)
              else ([], s)
  | [] => ([], [])
  end.

Definition lower (c : ascii) : ascii :=
  if (65 <=? code c) && (code c <=? 90) then ascii_of_nat (code c + 32) else c.

(** [t] is a prefix of [s], letter case apart: the rest of [s]. *)
Fixpoint strip_prefix_ci (t s : pystr) : option pystr :=
  match t, s with
  | [], _ => Some s
  | a :: t', b :: s' => if chr_eqb (lower b) a then strip_prefix_ci t' s' else None
  | _ :: _, [] => None
  end.

(** The exponent part of a decimal literal: [(exponent, rest)]; an [e]
    that no digit follows is not part of the number. *)
Definition take_exponent (s : pystr) : Z * pystr :=
  match s with
  | c :: t =>
      if chr_eqb (lower c) (ascii_of_nat 101) then
        let (eneg, t') := take_sign t in
        match span_digits t' with
        | (d :: ds, r) =>
            ((if eneg then - Z_of_digits (d :: ds) else Z_of_digits (d :: ds))%Z, r)
        | ([], _) => (0%Z, s)
        end
      else (0%Z, s)
  | [] => (0%Z, s)
  end.

(** A decimal literal at the start of [s]: sign, digits, an optional point
    and digits, an optional exponent, with a digit before or after the
    point.  [None] when no number starts [s]. *)
Definition parse_decimal (s : pystr) : option (pyfloat * pystr) :=
  let (neg, s1) := take_sign s in
  let (ip, s2) := span_digits s1 in
  let (fp, s3) :=
    match s2 with
    | c :: t => if code c =? 46 then span_digits t else ([], s2)
    | [] => ([], s2)
    end in
  match ip ++ fp with
  | [] => None
  | ds =>
      let (ex, s4) := take_exponent s3 in
      Some (float_of_decimal neg (Z_of_digits ds) (ex - Z.of_nat (length fp)), s4)
  end.

(** [inf], [infinity] or [nan] with an optional sign, in any letter case. *)
Definition parse_inf_nan (oid : objid) (s : pystr) : option (pyfloat * pystr) :=
  let (neg, s1) := take_sign s in
  match strip_prefix_ci (str "inf") s1 with
  | Some s2 =>
      match strip_prefix_ci (str "inity") s2 with
      | Some s3 => Some (FInf neg, s3)
      | None => Some (FInf neg, s2)
      end
  | None =>
      match strip_prefix_ci (str "nan") s1 with
      | Some s2 => Some (FNaN neg oid, s2)
      | None => None
      end
  end.

(** The underscores of a float literal are dropped; each has to stand
    between two digits. *)
Fixpoint drop_underscores (prev : option ascii) (s : pystr) : option pystr :=
  match s with
  | c :: t =>
      if is_underscore c then
        match prev with
        | Some p => if is_digit p then drop_underscores (Some c) t else None
        | None => None
        end
      else
        match prev with
        | Some p =>
            if is_underscore p && negb (is_digit c) then None
            else option_map (cons c) (drop_underscores (Some c) t)
        | None => option_map (cons c) (drop_underscores (Some c) t)
        end
  | [] =>
      match prev with
      | Some p => if is_underscore p then None else Some []
      | None => Some []
      end
  end.

(** [float(val)]; [None] is [ValueError].  [oid] is the identity of the
    object made, which only a NaN keeps. *)
Definition py_float (oid : objid) (val : pystr) : option pyfloat :=
  match drop_underscores None val with
  | None => None
  | Some s =>
      let body := rev (skip_num_space (rev (skip_num_space s))) in
      match body with
      | [] => None
      | _ :: _ =>
          let r := match parse_decimal body with
                   | Some r => Some r
                   | None => parse_inf_nan oid body
                   end in
          match r with
          | Some (f, []) => Some f
          | _ => None
          end
      end
  end.

(** ** [convert_value] *)

(** [val[1:-1]] *)
Definition slice_1_m1 (val : pystr) : pystr := removelast (tl val).

Definition quoted_pair (val : pystr) : bool :=
  (2 <=? length val) && is_quote (hd quote_c val) && is_quote (last val quote_c).

(** [val] after [if len(val) >= 2 and ...: val = val[1:-1]]. *)
Definition strip_quote_pair (val : pystr) : pystr :=
  if quoted_pair val then slice_1_m1 val else val.

(** [convert_value(val)].  [oid] is the identity of the float object that
    [float(val)] makes. *)
Definition convert_value (oid : objid) (val : pystr) : Value :=
  match val with
  | [] => VText val
  | _ :: _ =>
      let val := strip_quote_pair val in
      match py_int val with
      | Some z => VInt z
      | None =>
          match py_float oid val with
          | Some f => VFloat f
          | None => VText val
          end
      end
  end.

(** ** Text of any characters

    The reader above is embedded over the characters of code point
    0..255.  The text [convert_value] gets may hold any character, and
    [int] and [float] read more than ASCII: a decimal digit of any script
    counts as its digit value and a white space character as a space.
    This module embeds [convert_value] over text of any code points; on
    text of code points below 256 it is the function above
    (lemma [convert_value_latin1]). *)

Module Unicode.

(** A text as the list of its code points. *)
Definition ustr : Type := list N.

(** [Py_UNICODE_ISSPACE]: the characters [str.isspace] holds of. *)
Definition is_space (cp : N) : bool :=
  (((9 <=? cp) && (cp <=? 13)) || ((28 <=? cp) && (cp <=? 32))
   || (cp =? 133) || (cp =? 160) || (cp =? 5760)
   || ((8192 <=? cp) && (cp <=? 8202))
   || (cp =? 8232) || (cp =? 8233) || (cp =? 8239) || (cp =? 8287)
   || (cp =? 12288))%N.

(** The decimal digits come in runs of ten, from the digit zero to the
    digit nine of a script: the code point of the digit zero of every
    run (Unicode 14.0, the version of CPython 3.11). *)
Definition decimal_zeros : list N :=
  [48; 1632; 1776; 1984; 2406; 2534; 2662; 2790; 2918; 3046; 3174;
   3302; 3430; 3558; 3664; 3792; 3872; 4160; 4240; 6112; 6160; 6470;
   6608; 6784; 6800; 6992; 7088; 7232; 7248; 42528; 43216; 43264;
   43472; 43504; 43600; 44016; 65296; 66720; 68912; 69734; 69872;
   69942; 70096; 70384; 70736; 70864; 71248; 71360; 71472; 71904;
   72016; 72784; 73040; 73120; 92768; 92864; 93008; 120782; 120792;
   120802; 120812; 120822; 123200; 123632; 125264; 130032]%N.

(** [Py_UNICODE_TODECIMAL]: the value of a decimal digit. *)
Definition to_decimal (cp : N) : option N :=
  match find (fun z => (z <=? cp) && (cp <? z + 10))%N decimal_zeros with
  | Some z => Some (cp - z)%N
  | None => None
  end.

(** What [int] and [float] read of a character: an ASCII character is
    itself, any other white space is a space, any other decimal digit
    is the ASCII digit of its value, and any other character is a
    question mark, which no number holds. *)
Definition ascii_of (cp : N) : ascii :=
  if (cp <? 127)%N then ascii_of_N cp
  else if is_space cp then ascii_of_N 32
  else match to_decimal cp with
       | Some d => ascii_of_N (48 + d)
       | None => ascii_of_N 63
       end.

Definition to_ascii (s : ustr) : pystr := map ascii_of s.

(** [int(val)] and [float(val)] *)
Definition parse_int (val : ustr) : option Z := py_int (to_ascii val).

Definition parse_float (oid : objid) (val : ustr) : option pyfloat :=
  py_float oid (to_ascii val).

Inductive Value : Type :=
| UInt (z : Z)
| UFloat (f : pyfloat)
| UText (s : ustr).

Definition quote : N := 34.

Definition quoted_pair (val : ustr) : bool :=
  (2 <=? length val) && (hd quote val =? quote)%N
  && (last val quote =? quote)%N.

(** [val] after [if len(val) >= 2 and ...: val = val[1:-1]]. *)
Definition strip_quote_pair (val : ustr) : ustr :=
  if quoted_pair val then removelast (tl val) else val.

(** [convert_value(val)] *)
Definition convert_value (oid : objid) (val : ustr) : Value :=
  match val with
  | [] => UText val
  | _ :: _ =>
      let val := strip_quote_pair val in
      match parse_int val with
      | Some z => UInt z
      | None =>
          match parse_float oid val with
          | Some f => UFloat f
          | None => UText val
          end
      end
  end.

(** A text of code points below 256. *)
Definition latin1 (s : pystr) : ustr := map N_of_ascii s.

End Unicode.

(** A value over text of code points below 256 as a value over any
    text. *)
Definition latin1_value (v : Value) : Unicode.Value :=
  match v with
  | VInt z => Unicode.UInt z
  | VFloat f => Unicode.UFloat f
  | VText s => Unicode.UText (Unicode.latin1 s)
  end.

(** ** Exceptions *)

Inductive exn : Type :=
| KeyError | IndexError | UnboundLocalError | AttributeError | TypeError.

Inductive result (A : Type) : Type :=
| Ok (a : A)
| Raise (e : exn).

Arguments Ok {A} a.
Arguments Raise {A} e.

Definition bind {A B} (r : result A) (f : A -> result B) : result B :=
  match r with
  | Ok a => f a
  | Raise e => Raise e
  end.

Notation "x <- e ;; k" := (bind e (fun x => k))
  (at level 61, e at next level, right associativity).

(** A [for] loop whose body may raise. *)
Fixpoint for_each {A S} (xs : list A) (body : S -> A -> result S) (s : S)
  : result S :=
  match xs with
  | [] => Ok s
  | x :: t => s' <- body s x ;; for_each t body s'
  end.

(** ** Dicts and lists *)

Definition pydict (A : Type) : Type := list (Value * A).

(** [d.get(k)] *)
Fixpoint dict_get {A} (d : pydict A) (k : Value) : option A :=
  match d with
  | (k', v) :: t => if key_match k' k then Some v else dict_get t k
  | [] => None
  end.

(** [d[k] = v]: an entry whose key compares equal keeps its key and its
    place; a new key goes to the end. *)
Fixpoint dict_set {A} (d : pydict A) (k : Value) (v : A) : pydict A :=
  match d with
  | (k', v') :: t =>
      if key_match k' k then (k', v) :: t else (k', v') :: dict_set t k v
  | [] => [(k, v)]
  end.

(** [k in d] *)
Definition dict_in {A} (d : pydict A) (k : Value) : bool :=
  match dict_get d k with Some _ => true | None => false end.

(** [d[k]] *)
Definition getitem {A} (d : pydict A) (k : Value) : result A :=
  match dict_get d k with
  | Some v => Ok v
  | None => Raise KeyError
  end.

(** [l[i]] for [i >= 0] *)
Definition index {A} (l : list A) (i : nat) : result A :=
  match nth_error l i with
  | Some v => Ok v
  | None => Raise IndexError
  end.

(** [{k: f(k) for k in keys}] *)
Definition dict_comp {A} (keys : list Value) (f : Value -> result A)
  : result (pydict A) :=
  for_each keys (fun d k => v <- f k ;; Ok (dict_set d k v)) [].

(** ** [class DataFrame] *)

Record DataFrame : Type := MkDataFrame {
  data : pydict (list Value);
  columns : list Value;
  num_rows : nat
}.

(** [DataFrame.__init__] on a dict. *)
Definition DataFrame_init (d : pydict (list Value)) : DataFrame :=
  {| data := d;
     columns := map fst d;
     num_rows := match d with
                 | (_, l) :: _ => length l
                 | [] => 0
                 end |}.

(** [DataFrame.__repr__]: the dict that is printed. *)
Definition preview (df : DataFrame) : result (pydict (list Value)) :=
  let preview_rows := Nat.min 5 (num_rows df) in
  dict_comp (columns df) (fun col =>
    l <- getitem (data df) col ;; Ok (firstn preview_rows l)).

(** [{col: self.data[col][i] for col in self.columns}] *)
Definition row_dict (df : DataFrame) (i : nat) : result (pydict Value) :=
  dict_comp (columns df) (fun col =>
    l <- getitem (data df) col ;; index l i).

(** [DataFrame.row] for [index >= 0]. *)
Definition row (df : DataFrame) (i : nat) : result (pydict Value) :=
  if num_rows df <=? i then Raise IndexError else row_dict df i.

(** [target[col].append(self.data[col][i])] *)
Definition append_cell (df : DataFrame) (i : nat)
    (target : pydict (list Value)) (col : Value)
  : result (pydict (list Value)) :=
  cur <- getitem target col ;;
  l <- getitem (data df) col ;;
  v <- index l i ;;
  Ok (dict_set target col (cur ++ [v])).

(** [for col in self.columns: target[col].append(self.data[col][i])] *)
Definition append_row (df : DataFrame) (i : nat)
    (target : pydict (list Value)) : result (pydict (list Value)) :=
  for_each (columns df) (append_cell df i) target.

(** [{col: [] for col in self.columns}] *)
Definition empty_columns (cols : list Value) : result (pydict (list Value)) :=
  dict_comp cols (fun _ => Ok []).

(** [DataFrame.filter]; [func] is the caller's predicate on a row. *)
Definition filter (df : DataFrame) (func : pydict Value -> bool)
  : result DataFrame :=
  filtered_data <- empty_columns (columns df) ;;
  filtered_data <-
    for_each (seq 0 (num_rows df)) (fun fd i =>
      r <- row_dict df i ;;
      if func r then append_row df i fd else Ok fd) filtered_data ;;
  Ok (DataFrame_init filtered_data).

(** [DataFrame.select] *)
Definition select (df : DataFrame) (cols : list Value) : result DataFrame :=
  selected_data <- dict_comp cols (fun col => getitem (data df) col) ;;
  Ok (DataFrame_init selected_data).

(** One round of the loop of [group_by]. *)
Definition group_by_step (df : DataFrame) (group_col : Value)
    (groups : pydict (pydict (list Value))) (i : nat)
  : result (pydict (pydict (list Value))) :=
  gc <- getitem (data df) group_col ;;
  key <- index gc i ;;
  groups <- (if dict_in groups key then Ok groups
             else fresh <- empty_columns (columns df) ;;
                  Ok (dict_set groups key fresh)) ;;
  g <- getitem groups key ;;
  g <- append_row df i g ;;
  Ok (dict_set groups key g).

(** [DataFrame.group_by] *)
Definition group_by (df : DataFrame) (group_col : Value)
  : result (pydict DataFrame) :=
  groups <- for_each (seq 0 (num_rows df)) (group_by_step df group_col) [] ;;
  Ok (map (fun kv => (fst kv, DataFrame_init (snd kv))) groups).

(** [DataFrame.aggregate]; [func] is the caller's reducer. *)
Definition aggregate {A} (df : DataFrame) (col : Value)
    (func : list Value -> A) : result A :=
  l <- getitem (data df) col ;; Ok (func l).

(** ** [read_csv] *)

(** The values of one line: [convert_value] of each field.  The float
    that field [j] of line [i] makes is the object [(i, j)]. *)
Definition line_values (i : nat) (line : pystr) : list Value :=
  let fields := raw_fields line in
  map (fun jf => convert_value (i, fst jf) (snd jf))
      (combine (seq 0 (length fields)) fields).

(** The local variables [columns] and [header]; [None] is a variable that
    holds [None] (columns) or is not bound yet (header). *)
Record reader_state : Type := MkReader {
  rs_columns : option (pydict (list Value));
  rs_header : option (list Value)
}.

(** [for h, v in zip(header, values): columns[h].append(v)] *)
Definition append_values (cols : option (pydict (list Value)))
    (header values : list Value) : result (option (pydict (list Value))) :=
  for_each (combine header values) (fun c hv =>
    match c with
    | None => Raise TypeError
    | Some d =>
        cur <- getitem d (fst hv) ;;
        Ok (Some (dict_set d (fst hv) (cur ++ [snd hv])))
    end) cols.

(** The body of the loop over the lines, for line number [i]. *)
Definition read_line (st : reader_state) (il : nat * pystr)
  : result reader_state :=
  let i := fst il in
  let line := rstrip_nl (snd il) in
  match line with
  | [] => Ok st
  | _ :: _ =>
      let values := line_values i line in
      if i =? 0 then
        cols <- empty_columns values ;;
        Ok (MkReader (Some cols) (Some values))
      else
        match rs_header st with
        | None => Raise UnboundLocalError
        | Some header =>
            cols <- append_values (rs_columns st) header values ;;
            Ok (MkReader cols (rs_header st))
        end
  end.

(** [read_csv(filename, sep)] on the lines the file yields.  [sep] is not
    used by the body. *)
Definition read_csv (lines : list pystr) (sep : pystr) : result DataFrame :=
  st <- for_each (combine (seq 0 (length lines)) lines) read_line
          (MkReader None None) ;;
  match rs_columns st with
  | None => Raise AttributeError
  | Some d => Ok (DataFrame_init d)
  end.

Definition default_sep : pystr := str ",".

(** ** Notions the statements use *)

(** The keys of a dict are pairwise different for the dict. *)
Fixpoint dict_wf {A} (d : pydict A) : bool :=
  match d with
  | (k, _) :: t => negb (dict_in t k) && dict_wf t
  | [] => true
  end.

(** Every column has [num_rows] cells. *)
Definition alignedb (df : DataFrame) : bool :=
  forallb (fun kv => length (snd kv) =? num_rows df) (data df).

(** The table made of the rows [rows] of [d], in that order. *)
Definition take_rows (d : pydict (list Value)) (rows : list nat)
  : pydict (list Value) :=
  map (fun cl => (fst cl, map (fun i => nth i (snd cl) (VInt 0)) rows)) d.

(** The distinct keys of [ks], each at the place of its first occurrence. *)
Fixpoint first_seen (ks : list Value) : list Value :=
  match ks with
  | k :: t => k :: List.filter (fun k' => negb (key_match k k')) (first_seen t)
  | [] => []
  end.

(** The indices of the cells of [gc] that a dict takes for the key [k]. *)
Definition rows_with (gc : list Value) (k : Value) : list nat :=
  List.filter (fun i => key_match k (nth i gc (VInt 0))) (seq 0 (length gc)).

(** No key of [ks] is the key [k] for a dict. *)
Definition no_key (ks : list Value) (k : Value) : Prop :=
  forall k', In k' ks -> key_match k' k = false.

(** The keys [ks] are pairwise different for a dict. *)
Fixpoint keys_distinct (ks : list Value) : Prop :=
  match ks with
  | k :: t => no_key t k /\ keys_distinct t
  | [] => True
  end.

(** The row [i] of [d] as a dict. *)
Definition row_of (d : pydict (list Value)) (i : nat) : pydict Value :=
  map (fun cl => (fst cl, nth i (snd cl) (VInt 0))) d.

(** The dict with the keys [K] in that order, the key [k] holding [T k]. *)
Definition keyed {A} (T : Value -> A) (K : list Value) : pydict A :=
  map (fun k => (k, T k)) K.

(** The float [1.0]. *)
Definition float_one : pyfloat := FFinite false 4503599627370496 (-52).

(** A table with the columns [k] and [v] and four rows. *)
Definition ex_data : pydict (list Value) :=
  [(VText (str "k"), [VInt 1; VInt 2; VInt 1; VInt 3]);
   (VText (str "v"), [VInt 10; VInt 20; VInt 30; VInt 40])].

(** A table whose column [k] holds the int 1, the float 1.0 and the
    text 1. *)
Definition ex_mixed : pydict (list Value) :=
  [(VText (str "k"), [VInt 1; VFloat float_one; VText (str "1")])].



(** The end of a line as the file yields it. *)
Definition nl : pystr := [lf_c].

(** The text of a quoted field: every double quote of the content is
    doubled. *)
Definition escape_quotes (c : pystr) : pystr :=
  flat_map (fun a => if is_quote a then [quote_c; quote_c] else [a]) c.

(** The quoted field with the content [c]. *)
Definition quoted (c : pystr) : pystr :=
  quote_c :: escape_quotes c ++ [quote_c].

(** The value of a quoted field is its content as it stands between the
    quotes, white space included. *)
Definition quoted_field_verbatim (c : pystr) : Prop :=
  nth_error (raw_fields (quoted c)) 0 = Some c.

(** [s] does not start with a character of the class [p]. *)
Definition not_at (p : ascii -> bool) (s : pystr) : Prop :=
  match s with
  | a :: _ => p a = false
  | [] => True
  end.

(** The white space a string starts with. *)
Fixpoint lead_space (s : pystr) : pystr :=
  match s with
  | c :: t => if is_space c then c :: lead_space t else []
  | [] => []
  end.

(** A field as it is written in a line: an unquoted text, or a quoted
    content with white space around the quotes. *)
Inductive csv_field : Type :=
| Unquoted (f : pystr)
| Quoted (ws1 c ws2 : pystr).

Definition field_src (x : csv_field) : pystr :=
  match x with
  | Unquoted f => f
  | Quoted ws1 c ws2 => ws1 ++ quoted c ++ ws2
  end.

(** An unquoted text has neither a double quote nor a comma; the text
    around the quotes of a quoted field is white space. *)
Definition field_ok (x : csv_field) : bool :=
  match x with
  | Unquoted f => forallb unquoted_char f
  | Quoted ws1 _ ws2 => forallb is_space ws1 && forallb is_space ws2
  end.

(** The line made of the fields [x :: xs], a comma between two fields. *)
Fixpoint line_src (x : csv_field) (xs : list csv_field) : pystr :=
  match xs with
  | [] => field_src x
  | y :: ys => field_src x ++ comma_c :: line_src y ys
  end.

(** The value of a field: the text, or the content between the quotes,
    without the white space at its ends. *)
Definition field_val (x : csv_field) : pystr :=
  match x with
  | Unquoted f => strip f
  | Quoted _ c _ => strip c
  end.

(** The values [read_csv] gets from the line [line_src x xs]: the values
    of its fields, and one more empty value unless the line ends with an
    empty field. *)
Fixpoint line_tokens (x : csv_field) (xs : list csv_field) : list pystr :=
  match xs with
  | [] => field_val x :: match field_src x with
                         | [] => []
                         | _ :: _ => [[]]
                         end
  | y :: ys => field_val x :: line_tokens y ys
  end.

(** What follows a field in a line: nothing, or a comma and the rest. *)
Definition line_tail (tail : pystr) : Prop :=
  tail = [] \/ (exists rest, tail = comma_c :: rest).








(** What [int] and [float] read of a character of code point below
    256. *)
Definition latin1_image (c : ascii) : ascii :=
  Unicode.ascii_of (N_of_ascii c).

(** The letters of [inf], [infinity], [nan] and of the exponent. *)
Definition number_letters : pystr := str "einftya".



(** The cells a line gives to the column of the key [k]: the values whose
    header name is that key, in the order of the line. *)
Definition cells_for (k : Value) (hv : list (Value * Value)) : list Value :=
  map snd (List.filter (fun p => key_match k (fst p)) hv).

(** The values of the lines that are not empty, [a] being the number of
    the first of [lines]. *)
Fixpoint data_rows (a : nat) (lines : list pystr) : list (list Value) :=
  match lines with
  | l :: t =>
      match rstrip_nl l with
      | [] => data_rows (S a) t
      | _ :: _ => line_values a (rstrip_nl l) :: data_rows (S a) t
      end
  | [] => []
  end.

(** How many names of the header are the key [h]. *)
Definition header_count (h : Value) (header : list Value) : nat :=
  length (List.filter (key_match h) header).

(** The columns [read_csv] builds from a header and data rows. *)
Definition csv_columns (header : list Value) (rows : list (list Value))
  : pydict (list Value) :=
  keyed (fun k => flat_map (fun vals => cells_for k (combine header vals)) rows)
        (first_seen header).

(** A file with the header [a,a] and the data rows [1,2] and [3,4]. *)
Definition ex_dup_lines : list pystr :=
  [str "a,a" ++ nl; str "1,2" ++ nl; str "3,4" ++ nl].

(** A file with the header [a,b,a] and the data row [1]. *)
Definition ex_short_lines : list pystr := [str "a,b,a" ++ nl; str "1" ++ nl].

(** The column of a name that the header has twice or more has a number
    of cells that is a multiple, by two or more, of the number of data
    rows. *)
Definition duplicate_column_multiple (lines : list pystr) : Prop :=
  forall l0 rest h df col,
    lines = l0 :: rest ->
    read_csv lines default_sep = Ok df ->
    2 <= header_count h (line_values 0 (rstrip_nl l0)) ->
    dict_get (data df) h = Some col ->
    exists n, 2 <= n /\ length col = n * length (data_rows 1 rest).

(** The text of the fields [pre], each with the comma after it. *)
Definition fields_src (pre : list csv_field) : pystr :=
  flat_map (fun x => field_src x ++ [comma_c]) pre.

(** What is left to scan after a match, counted with the flag: it
    decreases at every match. *)
Definition scan_measure (s : pystr) (adv : bool) : nat :=
  2 * length s + (if adv then 1 else 2).














(** A predicate on the rows of [ex_data]: the cell of [v] is an int above
    15. *)
Definition ex_pred (r : pydict Value) : bool :=
  match dict_get r (VText (str "v")) with
  | Some (VInt z) => (15 <? z)%Z
  | _ => false
  end.

(** [DataFrame.__getitem__] *)
Definition DataFrame_getitem (df : DataFrame) (key : Value)
  : result (list Value) :=
  getitem (data df) key.

(** [DataFrame.row] for any int [index]. *)
Definition row_int (df : DataFrame) (index : Z) : result (pydict Value) :=
  if ((index <? 0) || (Z.of_nat (num_rows df) <=? index))%Z
  then Raise IndexError
  else row_dict df (Z.to_nat index).

(** The first [n] cells of every column. *)
Definition head_rows (d : pydict (list Value)) (n : nat)
  : pydict (list Value) :=
  map (fun cl => (fst cl, firstn n (snd cl))) d.

(** The column of the name [k], or no cell when [k] is no column. *)
Definition column_of (d : pydict (list Value)) (k : Value) : list Value :=
  match dict_get d k with
  | Some l => l
  | None => []
  end.

(** A predicate on rows: the cell of the column [c] is the key [k]. *)
Definition cell_is (c k : Value) (r : pydict Value) : bool :=
  match dict_get r c with
  | Some v => key_match k v
  | None => false
  end.

(** A table whose second column is shorter than the first. *)
Definition ex_ragged : pydict (list Value) :=
  [(VText (str "k"), [VInt 1; VInt 2; VInt 3]);
   (VText (str "v"), [VInt 10])].

(** A file with CR LF line ends, and the same file with LF line ends. *)
Definition ex_crlf_lines : list pystr :=
  [str "a,b" ++ [cr_c; lf_c]; str "1,2" ++ [cr_c; lf_c]].

Definition ex_lf_lines : list pystr := [str "a,b" ++ nl; str "1,2" ++ nl].








(** * Properties *)

(** ** Key comparison *)

Lemma key_match_iff a b : key_match a b = true <-> key_of a = key_of b.
Proof.
  unfold key_match. destruct (dkey_eq_dec (key_of a) (key_of b)); split;
    congruence.
Qed.

Lemma key_match_refl a : key_match a a = true.
Proof. apply key_match_iff. reflexivity. Qed.

Lemma key_match_sym a b : key_match a b = key_match b a.
Proof.
  destruct (key_match a b) eqn:E1, (key_match b a) eqn:E2; trivial.
  - apply key_match_iff in E1. symmetry in E1. apply key_match_iff in E1.
    congruence.
  - apply key_match_iff in E2. symmetry in E2. apply key_match_iff in E2.
    congruence.
Qed.

Lemma key_match_trans a b c :
  key_match a b = true -> key_match b c = true -> key_match a c = true.
Proof. rewrite !key_match_iff. congruence. Qed.

Lemma key_match_congr a b c :
  key_match a b = true -> key_match a c = key_match b c.
Proof.
  intros H. destruct (key_match b c) eqn:E.
  - eapply key_match_trans; eauto.
  - destruct (key_match a c) eqn:E'; trivial.
    rewrite key_match_sym in H.
    rewrite (key_match_trans _ _ _ H E') in E. discriminate.
Qed.

(** ** Dicts *)

Lemma dict_get_None {A} (d : pydict A) k :
  dict_get d k = None <-> no_key (map fst d) k.
Proof.
  unfold no_key. induction d as [|[k0 v0] d IH]; simpl.
  - split; [intros _ k' [] | trivial].
  - destruct (key_match k0 k) eqn:E.
    + split; [discriminate|]. intros H. rewrite (H k0) in E; auto; discriminate.
    + rewrite IH. split.
      * intros H k' [<-|Hin]; auto.
      * intros H k' Hin. auto.
Qed.

Lemma dict_in_false {A} (d : pydict A) k :
  dict_in d k = false <-> no_key (map fst d) k.
Proof.
  unfold dict_in. rewrite <- dict_get_None.
  destruct (dict_get d k); split; congruence.
Qed.

Lemma dict_get_app_r {A} (d1 d2 : pydict A) k :
  no_key (map fst d1) k -> dict_get (d1 ++ d2) k = dict_get d2 k.
Proof.
  induction d1 as [|[k0 v0] d1 IH]; simpl; intros H; trivial.
  rewrite (H k0) by (simpl; auto). apply IH.
  intros k' Hin. apply H. simpl; auto.
Qed.

Lemma dict_set_app_r {A} (d1 d2 : pydict A) k v :
  no_key (map fst d1) k -> dict_set (d1 ++ d2) k v = d1 ++ dict_set d2 k v.
Proof.
  induction d1 as [|[k0 v0] d1 IH]; simpl; intros H; trivial.
  rewrite (H k0) by (simpl; auto). f_equal. apply IH.
  intros k' Hin. apply H. simpl; auto.
Qed.

Lemma dict_get_In {A} (d : pydict A) k v :
  dict_get d k = Some v -> exists k', In (k', v) d /\ key_match k' k = true.
Proof.
  induction d as [|[k0 v0] d IH]; simpl; [discriminate|].
  destruct (key_match k0 k) eqn:E.
  - intros [= <-]. exists k0. auto.
  - intros H. destruct (IH H) as (k' & Hin & Hm). exists k'. auto.
Qed.

Lemma dict_wf_cons {A} (k : Value) (v : A) d :
  dict_wf ((k, v) :: d) = true <->
  no_key (map fst d) k /\ dict_wf d = true.
Proof.
  simpl. rewrite andb_true_iff, negb_true_iff, dict_in_false. tauto.
Qed.

Lemma no_key_sym ks k :
  no_key ks k -> forall k', In k' ks -> key_match k k' = false.
Proof. intros H k' Hin. rewrite key_match_sym. auto. Qed.

Lemma no_key_app ks1 ks2 k :
  no_key (ks1 ++ ks2) k <-> no_key ks1 k /\ no_key ks2 k.
Proof.
  unfold no_key. split.
  - intros H. split; intros k' Hin; apply H, in_or_app; auto.
  - intros [H1 H2] k' Hin. apply in_app_or in Hin as [?|?]; auto.
Qed.

(** ** Loops *)

Lemma for_each_app {A S} (xs ys : list A) (body : S -> A -> result S) s :
  for_each (xs ++ ys) body s = (s' <- for_each xs body s ;; for_each ys body s').
Proof.
  revert s. induction xs as [|x xs IH]; simpl; intros s; trivial.
  destruct (body s x); simpl; auto.
Qed.

Lemma for_each_inv {A S} (P : S -> Prop) (xs : list A)
    (body : S -> A -> result S) s :
  P s ->
  (forall s x, In x xs -> P s -> exists s', body s x = Ok s' /\ P s') ->
  exists s', for_each xs body s = Ok s' /\ P s'.
Proof.
  revert s. induction xs as [|x xs IH]; simpl; intros s Hs Hstep.
  - eauto.
  - destruct (Hstep s x) as (s1 & E & H1); auto. rewrite E. simpl.
    apply IH; auto.
Qed.

(** ** Keys that are pairwise different *)

Lemma dict_wf_distinct {A} (d : pydict A) :
  dict_wf d = true <-> keys_distinct (map fst d).
Proof.
  induction d as [|[k v] d IH]; [simpl; tauto|].
  rewrite dict_wf_cons. simpl. tauto.
Qed.

Lemma keys_distinct_app ks1 ks2 :
  keys_distinct (ks1 ++ ks2) <->
  keys_distinct ks1 /\ keys_distinct ks2 /\
  (forall k, In k ks2 -> no_key ks1 k).
Proof.
  induction ks1 as [|a ks1 IH]; simpl.
  - split; [intros H; repeat split; auto; intros k _ k' []|tauto].
  - rewrite IH, no_key_app. split.
    + intros ((H1 & H2) & H3 & H4 & H5). repeat split; auto.
      intros k Hk k' [<-|Hin].
      * rewrite key_match_sym. apply H2; auto.
      * apply H5; auto.
    + intros ((H1 & H2) & H3 & H4). repeat split; auto.
      * intros k Hk. rewrite key_match_sym. apply (H4 k Hk). simpl; auto.
      * intros k Hk k' Hin. apply (H4 k Hk). simpl; auto.
Qed.

Lemma distinct_match_eq ks k k' :
  keys_distinct ks -> In k ks -> In k' ks -> key_match k k' = true -> k = k'.
Proof.
  induction ks as [|a ks IH]; simpl; [tauto|].
  intros [Ha Hd] [<-|Hk] [<-|Hk'] Hm; auto.
  - rewrite key_match_sym, (Ha k') in Hm; auto; discriminate.
  - rewrite (Ha k) in Hm; auto; discriminate.
Qed.

Lemma dict_get_wf_In {A} (d : pydict A) k v :
  dict_wf d = true -> In (k, v) d -> dict_get d k = Some v.
Proof.
  induction d as [|[k0 v0] d IH]; simpl; [tauto|].
  rewrite andb_true_iff, negb_true_iff, dict_in_false.
  intros [Hn Hw] [[= <- <-]|Hin].
  - rewrite key_match_refl. trivial.
  - rewrite key_match_sym, (Hn k); auto.
    apply in_map_iff. exists (k, v). auto.
Qed.

(** A comprehension over new, pairwise different keys adds one entry per
    key. *)
Lemma dict_comp_fresh {A} (f : Value -> result A) (g : Value -> A) ks t :
  (forall k, In k ks -> f k = Ok (g k)) ->
  keys_distinct ks ->
  (forall k, In k ks -> no_key (map fst t) k) ->
  for_each ks (fun d k => v <- f k ;; Ok (dict_set d k v)) t
  = Ok (t ++ map (fun k => (k, g k)) ks).
Proof.
  revert t. induction ks as [|k ks IH]; simpl; intros t Hf Hd Hn.
  - rewrite app_nil_r. trivial.
  - rewrite (Hf k) by auto. simpl.
    rewrite <- (app_nil_r t) at 1. rewrite dict_set_app_r by auto. simpl.
    rewrite IH.
    + rewrite <- app_assoc. trivial.
    + auto.
    + tauto.
    + intros k' Hk'. rewrite map_app. apply no_key_app. split; auto.
      intros k'' [<-|[]]. simpl. rewrite key_match_sym. apply Hd; auto.
Qed.

(** ** Tables whose keys are different and whose columns are aligned *)

Section Table.
Variable d : pydict (list Value).
Hypothesis Hwf : dict_wf d = true.

Let df := DataFrame_init d.

Lemma empty_columns_take : empty_columns (map fst d) = Ok (take_rows d []).
Proof.
  unfold empty_columns, dict_comp.
  rewrite (dict_comp_fresh (fun _ => Ok []) (fun _ => @nil Value)); simpl; auto.
  - unfold take_rows. rewrite map_map. trivial.
  - apply dict_wf_distinct; trivial.
  - intros k _ k' [].
Qed.

Lemma index_nth {A} (l : list A) i x : i < length l -> index l i = Ok (nth i l x).
Proof.
  intros H. unfold index. rewrite (nth_error_nth' l x H). trivial.
Qed.

Lemma row_dict_row_of i :
  (forall cl, In cl d -> i < length (snd cl)) ->
  row_dict df i = Ok (row_of d i).
Proof.
  intros Hi. unfold row_dict, dict_comp.
  rewrite (dict_comp_fresh _
    (fun k => match dict_get d k with
              | Some l => nth i l (VInt 0)
              | None => VInt 0
              end)); simpl.
  - f_equal. unfold row_of. rewrite map_map. apply map_ext_in.
    intros [k l] Hin. simpl. rewrite (dict_get_wf_In _ _ _ Hwf Hin). trivial.
  - intros k Hk. apply in_map_iff in Hk as ([k' l] & <- & Hin). simpl.
    unfold getitem. rewrite (dict_get_wf_In _ _ _ Hwf Hin). simpl.
    apply index_nth. apply (Hi _ Hin).
  - apply dict_wf_distinct; trivial.
  - intros k _ k' [].
Qed.

Lemma append_row_aux i rows d2 : forall d1 t1,
  d = d1 ++ d2 ->
  (forall k, In k (map fst d2) ->
     no_key (map fst d1) k /\ no_key (map fst t1) k) ->
  (forall cl, In cl d2 -> i < length (snd cl)) ->
  for_each (map fst d2) (append_cell df i) (t1 ++ take_rows d2 rows)
  = Ok (t1 ++ take_rows d2 (rows ++ [i])).
Proof.
  induction d2 as [|[k l] d2 IH]; intros d1 t1 Hd Hn Hi; simpl; trivial.
  assert (Hwf2 : keys_distinct (map fst d1 ++ k :: map fst d2)).
  { apply dict_wf_distinct in Hwf. rewrite Hd, map_app in Hwf. exact Hwf. }
  apply keys_distinct_app in Hwf2 as (_ & [Hk2 _] & _).
  destruct (Hn k) as [Hk1 Hkt]; [simpl; auto|].
  unfold append_cell at 1. unfold getitem.
  rewrite dict_get_app_r by trivial. simpl. rewrite key_match_refl. simpl.
  subst df. simpl. rewrite Hd at 1.
  rewrite dict_get_app_r by trivial. simpl. rewrite key_match_refl. simpl.
  rewrite (index_nth l i (VInt 0)) by (apply (Hi (k, l)); simpl; auto). simpl.
  rewrite dict_set_app_r by trivial. simpl. rewrite key_match_refl.
  change (t1 ++ (k, map (fun i0 => nth i0 l (VInt 0)) rows ++ [nth i l (VInt 0)])
             :: take_rows d2 rows)
    with (t1 ++ [(k, map (fun i0 => nth i0 l (VInt 0)) rows ++ [nth i l (VInt 0)])]
             ++ take_rows d2 rows).
  rewrite app_assoc.
  rewrite (IH (d1 ++ [(k, l)])).
  - rewrite <- app_assoc. simpl. rewrite map_app. trivial.
  - rewrite <- app_assoc. trivial.
  - intros k' Hk'. rewrite !map_app, !no_key_app. simpl.
    destruct (Hn k') as [H1 H2]; [simpl; auto|].
    assert (key_match k k' = false) by (rewrite key_match_sym; auto).
    repeat split; auto; intros k'' [<-|[]]; trivial.
  - intros cl Hcl. apply Hi. simpl; auto.
Qed.

Lemma append_row_take i rows :
  (forall cl, In cl d -> i < length (snd cl)) ->
  append_row df i (take_rows d rows) = Ok (take_rows d (rows ++ [i])).
Proof.
  intros Hi. unfold append_row.
  apply (@append_row_aux i rows d [] []); auto.
  intros k _. split; intros k' [].
Qed.
End Table.

Lemma aligned_lengths d :
  alignedb (DataFrame_init d) = true <->
  forall cl, In cl d -> length (snd cl) = num_rows (DataFrame_init d).
Proof.
  unfold alignedb. rewrite forallb_forall. simpl.
  split; intros H cl Hin; [apply Nat.eqb_eq|apply Nat.eqb_eq]; auto.
Qed.

Lemma aligned_take_rows d rows :
  alignedb (DataFrame_init (take_rows d rows)) = true.
Proof.
  apply aligned_lengths. intros cl Hin.
  assert (Hlen : forall cl', In cl' (take_rows d rows) ->
                             length (snd cl') = length rows).
  { intros cl' H. apply in_map_iff in H as (x & <- & _). simpl.
    apply length_map. }
  rewrite (Hlen _ Hin). simpl.
  destruct (take_rows d rows) as [|[k l] t] eqn:E; [destruct Hin|].
  symmetry. apply (Hlen (k, l)). simpl; auto.
Qed.

Lemma num_rows_take_rows cl d rows :
  num_rows (DataFrame_init (take_rows (cl :: d) rows)) = length rows.
Proof. simpl. apply length_map. Qed.

(** *** [filter] *)

Lemma filter_loop d (func : pydict Value -> bool) rows : forall idx,
  dict_wf d = true ->
  (forall i cl, In i idx -> In cl d -> i < length (snd cl)) ->
  for_each idx
    (fun (fd : pydict (list Value)) (i : nat) =>
       r <- row_dict (DataFrame_init d) i ;;
       if func r then append_row (DataFrame_init d) i fd else Ok fd)
    (take_rows d rows)
  = Ok (take_rows d (rows ++ List.filter (fun i => func (row_of d i)) idx)).
Proof.
  intros idx. revert rows.
  induction idx as [|i idx IH]; intros rows Hwf Hi; simpl.
  - rewrite app_nil_r. trivial.
  - rewrite row_dict_row_of by (trivial || (intros; apply Hi; simpl; auto)).
    simpl. destruct (func (row_of d i)).
    + rewrite append_row_take by (trivial || (intros; apply Hi; simpl; auto)).
      simpl. rewrite IH by (trivial || (intros; apply Hi; simpl; auto)).
      rewrite <- app_assoc. trivial.
    + apply IH; trivial. intros; apply Hi; simpl; auto.
Qed.

Lemma filter_spec d func :
  dict_wf d = true -> alignedb (DataFrame_init d) = true ->
  filter (DataFrame_init d) func
  = Ok (DataFrame_init
          (take_rows d (List.filter (fun i => func (row_of d i))
                                    (seq 0 (num_rows (DataFrame_init d)))))).
Proof.
  intros Hwf Hal. unfold filter. simpl columns.
  rewrite empty_columns_take by trivial. simpl bind.
  rewrite filter_loop; trivial.
  intros i cl Hi Hcl. apply in_seq in Hi.
  pose proof (proj1 (aligned_lengths d) Hal cl Hcl) as E. simpl in E. lia.
Qed.

(** *** [select] *)

Lemma Forall_dict_set {A} (P : A -> Prop) (t : pydict A) k v :
  Forall (fun kv => P (snd kv)) t -> P v ->
  Forall (fun kv => P (snd kv)) (dict_set t k v).
Proof.
  intros Ht Hv. induction t as [|[k0 v0] t IH]; simpl.
  - constructor; auto.
  - inversion Ht; subst. destruct (key_match k0 k); constructor; auto.
Qed.

Lemma dict_in_getitem {A} (d : pydict A) c :
  dict_in d c = true -> exists l k, getitem d c = Ok l /\ In (k, l) d.
Proof.
  unfold dict_in, getitem. destruct (dict_get d c) as [l|] eqn:E; [|discriminate].
  intros _. destruct (dict_get_In _ _ _ E) as (k & Hin & _). eauto.
Qed.

Lemma select_aligned d cols :
  alignedb (DataFrame_init d) = true ->
  (forall c, In c cols -> dict_in d c = true) ->
  exists df', select (DataFrame_init d) cols = Ok df' /\ alignedb df' = true.
Proof.
  intros Hal Hin. unfold select, dict_comp.
  set (n := num_rows (DataFrame_init d)).
  destruct (for_each_inv
    (fun t : pydict (list Value) => Forall (fun kv => length (snd kv) = n) t)
    cols
    (fun t k => v <- getitem (data (DataFrame_init d)) k ;; Ok (dict_set t k v))
    []) as (r & E & Hr).
  - constructor.
  - intros t c Hc Ht. destruct (dict_in_getitem d c (Hin c Hc)) as (l & k & El & Hl).
    simpl. rewrite El. simpl. eexists. split; [reflexivity|].
    apply (Forall_dict_set (fun v => length v = n)); trivial.
    apply (proj1 (aligned_lengths d) Hal (k, l) Hl).
  - rewrite E. simpl. eexists. split; [reflexivity|].
    apply aligned_lengths. intros cl Hcl.
    rewrite Forall_forall in Hr. rewrite (Hr cl Hcl).
    destruct r as [|[k l] r]; [destruct Hcl|]. simpl.
    symmetry. apply (Hr (k, l)). simpl; auto.
Qed.

(** *** First occurrences *)

Lemma firstn_S_nth {A} (l : list A) m x :
  m < length l -> firstn (S m) l = firstn m l ++ [nth m l x].
Proof.
  revert m. induction l as [|a l IH]; intros m H; simpl in H; [lia|].
  destruct m as [|m]; trivial.
  change (a :: firstn (S m) l = a :: (firstn m l ++ [nth m l x])).
  f_equal. apply IH. lia.
Qed.

Lemma rows_with_snoc l v k :
  rows_with (l ++ [v]) k
  = rows_with l k ++ (if key_match k v then [length l] else []).
Proof.
  unfold rows_with. rewrite length_app. simpl.
  rewrite Nat.add_1_r, seq_S, filter_app. simpl.
  rewrite app_nth2, Nat.sub_diag by lia. simpl.
  f_equal. apply filter_ext_in. intros i Hi. apply in_seq in Hi.
  rewrite app_nth1 by lia. trivial.
Qed.

Lemma rows_with_none l k :
  (forall x, In x l -> key_match k x = false) -> rows_with l k = [].
Proof.
  induction l as [|x l IH] using rev_ind; intros H; trivial.
  rewrite rows_with_snoc, IH.
  - rewrite H; trivial. apply in_or_app. simpl; auto.
  - intros y Hy. apply H. apply in_or_app; auto.
Qed.

Lemma existsb_match_false K v :
  existsb (fun k => key_match k v) K = false <-> no_key K v.
Proof.
  unfold no_key. induction K as [|k K IH]; simpl.
  - split; [intros _ k' []|trivial].
  - rewrite orb_false_iff, IH. split.
    + intros [H1 H2] k' [<-|Hin]; auto.
    + intros H. split; auto.
Qed.

Lemma existsb_filter_keep a v K :
  key_match a v = false ->
  existsb (fun k => key_match k v)
          (List.filter (fun k' => negb (key_match a k')) K)
  = existsb (fun k => key_match k v) K.
Proof.
  intros Hav. induction K as [|k K IH]; simpl; trivial.
  destruct (key_match a k) eqn:Eak; simpl.
  - rewrite IH. rewrite <- (key_match_congr _ _ v Eak), Hav. trivial.
  - rewrite IH. trivial.
Qed.

Lemma first_seen_snoc l v :
  first_seen (l ++ [v])
  = if existsb (fun k => key_match k v) (first_seen l) then first_seen l
    else first_seen l ++ [v].
Proof.
  induction l as [|a l IH]; simpl; trivial.
  rewrite IH. destruct (key_match a v) eqn:Eav; simpl.
  - destruct (existsb _ (first_seen l)); trivial.
    rewrite filter_app. simpl. rewrite Eav. simpl. rewrite app_nil_r. trivial.
  - rewrite existsb_filter_keep by trivial.
    destruct (existsb _ (first_seen l)); trivial.
    rewrite filter_app. simpl. rewrite Eav. trivial.
Qed.

Lemma keys_distinct_filter p K :
  keys_distinct K -> keys_distinct (List.filter p K).
Proof.
  induction K as [|k K IH]; simpl; trivial.
  intros [Hn Hd]. destruct (p k); simpl; auto.
  split; auto. intros k' Hk'. apply filter_In in Hk' as [Hk' _]. auto.
Qed.

Lemma first_seen_distinct l : keys_distinct (first_seen l).
Proof.
  induction l as [|a l IH]; simpl; trivial. split.
  - intros k' Hk'. apply filter_In in Hk' as [_ Hk'].
    rewrite key_match_sym. apply negb_true_iff. trivial.
  - apply keys_distinct_filter. trivial.
Qed.

Lemma first_seen_In l k : In k (first_seen l) -> In k l.
Proof.
  induction l as [|a l IH]; simpl; trivial.
  intros [->|H]; auto. apply filter_In in H as [H _]. auto.
Qed.

Lemma first_seen_covers l x :
  In x l -> existsb (fun k => key_match k x) (first_seen l) = true.
Proof.
  induction l as [|a l IH]; simpl; [tauto|].
  intros [->|H].
  - rewrite key_match_refl. trivial.
  - destruct (key_match a x) eqn:E; trivial. simpl.
    rewrite existsb_filter_keep; auto.
Qed.

Lemma first_seen_none l v :
  existsb (fun k => key_match k v) (first_seen l) = false ->
  forall x, In x l -> key_match v x = false.
Proof.
  intros H x Hx. destruct (key_match v x) eqn:E; trivial.
  pose proof (first_seen_covers l x Hx) as Hc.
  apply existsb_exists in Hc as (k & Hk & Hkx).
  apply existsb_match_false in H. rewrite key_match_sym in E.
  specialize (H k Hk). rewrite (key_match_trans _ _ _ Hkx E) in H.
  discriminate.
Qed.

(** *** Dicts given by their keys *)

Lemma dict_in_keyed {A} (T : Value -> A) K v :
  dict_in (keyed T K) v = existsb (fun k => key_match k v) K.
Proof.
  unfold dict_in. induction K as [|k K IH]; simpl; trivial.
  destruct (key_match k v); trivial.
Qed.

Lemma dict_get_keyed {A} (T : Value -> A) K v k0 :
  keys_distinct K -> In k0 K -> key_match k0 v = true ->
  dict_get (keyed T K) v = Some (T k0).
Proof.
  induction K as [|a K IH]; simpl; [tauto|].
  intros [Hn Hd] Hin Hm. destruct (key_match a v) eqn:Eav.
  - destruct Hin as [->|Hin]; trivial.
    rewrite key_match_sym in Eav. specialize (Hn k0 Hin).
    rewrite (key_match_trans _ _ _ Hm Eav) in Hn. discriminate.
  - destruct Hin as [->|Hin]; [congruence|]. auto.
Qed.

Lemma dict_set_keyed {A} (T : Value -> A) K v x :
  keys_distinct K -> existsb (fun k => key_match k v) K = true ->
  dict_set (keyed T K) v x = keyed (fun k => if key_match k v then x else T k) K.
Proof.
  induction K as [|a K IH]; simpl; [discriminate|].
  intros [Hn Hd] He. destruct (key_match a v) eqn:Eav.
  - f_equal. apply map_ext_in. intros k Hk.
    destruct (key_match k v) eqn:Ekv; trivial.
    rewrite key_match_sym in Eav. specialize (Hn k Hk).
    rewrite (key_match_trans _ _ _ Ekv Eav) in Hn. discriminate.
  - simpl in He. f_equal. auto.
Qed.

Lemma dict_set_keyed_new {A} (T : Value -> A) K v x :
  existsb (fun k => key_match k v) K = false ->
  dict_set (keyed T K) v x = keyed T K ++ [(v, x)].
Proof.
  intros H. rewrite <- (app_nil_r (keyed T K)) at 1.
  rewrite dict_set_app_r; trivial.
  unfold keyed. rewrite map_map. simpl. rewrite map_id.
  apply existsb_match_false. trivial.
Qed.

Lemma no_key_keyed {A} (T : Value -> A) K v :
  existsb (fun k => key_match k v) K = false -> no_key (map fst (keyed T K)) v.
Proof.
  intros H. unfold keyed. rewrite map_map. simpl. rewrite map_id.
  apply existsb_match_false. trivial.
Qed.

(** *** [group_by] *)

Lemma column_length d c gc :
  alignedb (DataFrame_init d) = true -> dict_get d c = Some gc ->
  length gc = num_rows (DataFrame_init d).
Proof.
  intros Hal Hget. destruct (dict_get_In _ _ _ Hget) as (k & Hin & _).
  apply (proj1 (aligned_lengths d) Hal (k, gc) Hin).
Qed.

Lemma group_by_loop d c gc :
  dict_wf d = true -> alignedb (DataFrame_init d) = true ->
  dict_get d c = Some gc ->
  forall m, m <= length gc ->
  for_each (seq 0 m) (group_by_step (DataFrame_init d) c) []
  = Ok (keyed (fun k => take_rows d (rows_with (firstn m gc) k))
              (first_seen (firstn m gc))).
Proof.
  intros Hwf Hal Hget.
  pose proof (column_length d c gc Hal Hget) as Hlen.
  induction m as [|m IH]; intros Hm; trivial.
  rewrite (firstn_S_nth gc m (VInt 0)) by lia.
  rewrite seq_S, for_each_app, IH by lia. simpl.
  assert (Hrow : forall cl, In cl d -> m < length (snd cl)).
  { intros cl Hcl. rewrite (proj1 (aligned_lengths d) Hal cl Hcl). lia. }
  set (v := nth m gc (VInt 0)).
  set (l := firstn m gc).
  assert (Hl : length l = m) by (apply firstn_length_le; lia).
  unfold group_by_step. unfold getitem at 1. simpl data. rewrite Hget. simpl.
  rewrite (index_nth gc m (VInt 0)) by lia. fold v. simpl.
  rewrite dict_in_keyed, first_seen_snoc.
  destruct (existsb (fun k => key_match k v) (first_seen l)) eqn:E; simpl.
  - apply existsb_exists in E as (k0 & Hk0 & Hm0).
    unfold getitem.
    rewrite (dict_get_keyed _ _ v k0 (first_seen_distinct l) Hk0 Hm0). simpl.
    rewrite append_row_take by trivial. simpl.
    rewrite dict_set_keyed.
    + f_equal. apply map_ext_in. intros k Hk. f_equal.
      rewrite rows_with_snoc, Hl. destruct (key_match k v) eqn:Ekv.
      * rewrite key_match_sym in Hm0.
        rewrite (distinct_match_eq _ _ _ (first_seen_distinct l) Hk Hk0
                   (key_match_trans _ _ _ Ekv Hm0)).
        trivial.
      * rewrite app_nil_r. trivial.
    + apply first_seen_distinct.
    + apply existsb_exists. exists k0. auto.
  - rewrite empty_columns_take by trivial. simpl.
    rewrite dict_set_keyed_new by trivial.
    unfold getitem. rewrite dict_get_app_r by (apply no_key_keyed; trivial).
    simpl. rewrite key_match_refl. simpl.
    rewrite append_row_take by trivial. simpl.
    rewrite dict_set_app_r by (apply no_key_keyed; trivial).
    simpl. rewrite key_match_refl.
    unfold keyed. rewrite map_app. simpl. f_equal. f_equal.
    + apply map_ext_in. intros k Hk. f_equal.
      rewrite rows_with_snoc.
      apply existsb_match_false in E. rewrite (E k Hk), app_nil_r. trivial.
    + rewrite rows_with_snoc, key_match_refl, Hl.
      rewrite (rows_with_none l v (first_seen_none l v E)). trivial.
Qed.

(** What [group_by] returns: one table per first-seen key, made of the
    rows whose cell is that key for a dict. *)
Lemma group_by_spec d c gc :
  dict_wf d = true -> alignedb (DataFrame_init d) = true ->
  dict_get d c = Some gc ->
  group_by (DataFrame_init d) c
  = Ok (keyed (fun k => DataFrame_init (take_rows d (rows_with gc k)))
              (first_seen gc)).
Proof.
  intros Hwf Hal Hget. unfold group_by.
  rewrite <- (column_length d c gc Hal Hget).
  rewrite (group_by_loop d c gc Hwf Hal Hget (length gc)) by lia.
  simpl. rewrite firstn_all. unfold keyed. rewrite map_map. trivial.
Qed.

(** *** The rows of a group *)

Lemma In_rows_with gc k i :
  In i (rows_with gc k) <->
  i < length gc /\ key_match k (nth i gc (VInt 0)) = true.
Proof.
  unfold rows_with. rewrite filter_In, in_seq. simpl.
  split; intros [H1 H2]; split; trivial; lia.
Qed.

Lemma rows_with_sorted gc k : StronglySorted lt (rows_with gc k).
Proof.
  unfold rows_with. generalize 0 as a. generalize (length gc) as n.
  induction n as [|n IH]; intros a; simpl; [constructor|].
  destruct (key_match k (nth a gc (VInt 0))); [|apply IH].
  constructor; [apply IH|].
  apply Forall_forall. intros j Hj. apply filter_In in Hj as [Hj _].
  apply in_seq in Hj. lia.
Qed.

Lemma length_rows_with l k :
  length (rows_with l k) = length (List.filter (key_match k) l).
Proof.
  induction l as [|x l IH] using rev_ind; trivial.
  rewrite rows_with_snoc, filter_app, !length_app, IH. simpl.
  destruct (key_match k x); trivial.
Qed.

Lemma match_count_zero K x :
  no_key K x ->
  list_sum (map (fun k => if key_match k x then 1 else 0) K) = 0.
Proof.
  induction K as [|k K IH]; simpl; trivial.
  intros H. rewrite (H k), IH; simpl; auto.
  intros k' Hk'. apply H. simpl; auto.
Qed.

Lemma match_count_one K x :
  keys_distinct K -> existsb (fun k => key_match k x) K = true ->
  list_sum (map (fun k => if key_match k x then 1 else 0) K) = 1.
Proof.
  induction K as [|k K IH]; simpl; [discriminate|].
  intros [Hn Hd] He. destruct (key_match k x) eqn:E.
  - rewrite match_count_zero; trivial.
    intros k' Hk'. destruct (key_match k' x) eqn:E'; trivial.
    rewrite key_match_sym in E. specialize (Hn k' Hk').
    rewrite (key_match_trans _ _ _ E' E) in Hn. discriminate.
  - simpl in He. rewrite IH; trivial.
Qed.

Lemma list_sum_map_add {A} (f g : A -> nat) l :
  list_sum (map (fun a => f a + g a) l)
  = list_sum (map f l) + list_sum (map g l).
Proof. induction l as [|a l IH]; simpl; lia. Qed.

Lemma group_sizes_sum K l :
  keys_distinct K ->
  (forall x, In x l -> existsb (fun k => key_match k x) K = true) ->
  list_sum (map (fun k => length (List.filter (key_match k) l)) K) = length l.
Proof.
  intros Hd. induction l as [|x l IH]; intros Hc.
  - simpl. clear. induction K; simpl; auto.
  - rewrite (map_ext _ (fun k => (if key_match k x then 1 else 0)
                                 + length (List.filter (key_match k) l))).
    + rewrite list_sum_map_add, match_count_one, IH; trivial.
      * intros y Hy. apply Hc. simpl; auto.
      * apply Hc. simpl; auto.
    + intros k. simpl. destruct (key_match k x); trivial.
Qed.

Lemma StronglySorted_snoc (l : list nat) (n : nat) :
  StronglySorted lt l -> Forall (fun i => i < n) l ->
  StronglySorted lt (l ++ [n]).
Proof.
  induction 1 as [|a l Hl IH Ha]; intros Hn; simpl.
  - repeat constructor.
  - inversion Hn; subst. constructor; auto.
    apply Forall_app. split; auto.
Qed.

(** Every first-seen key is the cell of the first of its rows, and the
    first rows of the keys are in increasing order. *)
Lemma first_seen_heads l :
  (forall k, In k (first_seen l) ->
     exists i rest, rows_with l k = i :: rest /\ nth_error l i = Some k) /\
  StronglySorted lt (map (fun k => hd 0 (rows_with l k)) (first_seen l)).
Proof.
  induction l as [|v l [IH1 IH2]] using rev_ind.
  - split; [intros k []|constructor].
  - assert (Hold : forall k, In k (first_seen l) ->
              exists i rest, rows_with (l ++ [v]) k = i :: rest /\
                nth_error (l ++ [v]) i = Some k /\
                hd 0 (rows_with (l ++ [v]) k) = hd 0 (rows_with l k) /\
                i < length l).
    { intros k Hk. destruct (IH1 k Hk) as (i & rest & Er & En).
      rewrite rows_with_snoc, Er. simpl.
      assert (Hi : i < length l) by (apply nth_error_Some; congruence).
      eexists _, _. split; [reflexivity|].
      rewrite nth_error_app1 by trivial. auto. }
    rewrite first_seen_snoc.
    destruct (existsb (fun k => key_match k v) (first_seen l)) eqn:E.
    + split.
      * intros k Hk. destruct (Hold k Hk) as (i & rest & H1 & H2 & _). eauto.
      * rewrite (map_ext_in _ (fun k => hd 0 (rows_with l k))); trivial.
        intros k Hk. destruct (Hold k Hk) as (i & rest & _ & _ & H3 & _).
        trivial.
    + assert (Hv : rows_with (l ++ [v]) v = [length l]).
      { rewrite rows_with_snoc, key_match_refl.
        rewrite (rows_with_none l v (first_seen_none l v E)). trivial. }
      split.
      * intros k Hk. apply in_app_or in Hk as [Hk|[<-|[]]].
        -- destruct (Hold k Hk) as (i & rest & H1 & H2 & _). eauto.
        -- rewrite Hv. eexists _, _. split; [reflexivity|].
           rewrite nth_error_app2, Nat.sub_diag by lia. trivial.
      * rewrite map_app. simpl. rewrite Hv. simpl.
        rewrite (map_ext_in _ (fun k => hd 0 (rows_with l k))).
        -- apply StronglySorted_snoc; trivial.
           apply Forall_forall. intros i Hi.
           apply in_map_iff in Hi as (k & <- & Hk).
           destruct (IH1 k Hk) as (i & rest & Er & En). rewrite Er. simpl.
           apply nth_error_Some. congruence.
        -- intros k Hk. destruct (Hold k Hk) as (i & rest & _ & _ & H3 & _).
           trivial.
Qed.

(** C9. A table whose keys are those of a dict and whose columns all
    have [num_rows] cells: [filter] returns a table with that property,
    [select] of present names returns one, and every table [group_by]
    returns has it ([group_by] returns when the grouping column is
    present). *)
Theorem alignment_preserved (d : pydict (list Value)) :
  dict_wf d = true -> alignedb (DataFrame_init d) = true ->
  (forall func, exists df',
      filter (DataFrame_init d) func = Ok df' /\ alignedb df' = true) /\
  (forall cols, (forall c, In c cols -> dict_in d c = true) ->
      exists df',
        select (DataFrame_init d) cols = Ok df' /\ alignedb df' = true) /\
  (forall c, dict_in d c = true ->
      exists gs, group_by (DataFrame_init d) c = Ok gs) /\
  (forall c gs, group_by (DataFrame_init d) c = Ok gs ->
      forall k sub, In (k, sub) gs -> alignedb sub = true).
Proof.
  intros Hwf Hal. repeat split.
  - intros func. rewrite filter_spec by trivial.
    eexists. split; [reflexivity|]. apply aligned_take_rows.
  - intros cols Hc. apply select_aligned; trivial.
  - intros c Hc. unfold dict_in in Hc.
    destruct (dict_get d c) as [gc|] eqn:E; [|discriminate].
    rewrite (group_by_spec d c gc) by trivial. eauto.
  - intros c gs Hg k sub Hin.
    destruct (dict_get d c) as [gc|] eqn:E.
    + rewrite (group_by_spec d c gc) in Hg by trivial.
      injection Hg as <-. apply in_map_iff in Hin as (k' & [= <- <-] & _).
      apply aligned_take_rows.
    + unfold group_by in Hg.
      destruct (num_rows (DataFrame_init d)) as [|n].
      * simpl in Hg. injection Hg as <-. destruct Hin.
      * simpl in Hg. unfold group_by_step, getitem in Hg. simpl in Hg.
        rewrite E in Hg. discriminate.
Qed.

(** C8. On a table whose columns all have [num_rows] cells, [group_by]
    returns its groups keyed in first-seen order: each key is the cell of
    the first row of its group, and these first rows come in increasing
    order from group to group; the table of a key has
    all the columns and is made of the rows whose grouping cell is that
    key, in their original order; every row index is in the rows of
    exactly one key; and the row counts of the groups add up to
    [num_rows]. *)
Theorem group_by_partitions_rows (d : pydict (list Value)) (c : Value)
    (gc : list Value) :
  dict_wf d = true -> alignedb (DataFrame_init d) = true ->
  dict_get d c = Some gc ->
  exists gs,
    group_by (DataFrame_init d) c = Ok gs /\
    map fst gs = first_seen gc /\
    (forall k, In k (map fst gs) ->
       exists i rest, rows_with gc k = i :: rest /\ nth_error gc i = Some k) /\
    StronglySorted lt (map (fun k => hd 0 (rows_with gc k)) (map fst gs)) /\
    (forall k sub, In (k, sub) gs ->
       columns sub = columns (DataFrame_init d) /\
       data sub = take_rows d (rows_with gc k) /\
       StronglySorted lt (rows_with gc k) /\
       num_rows sub = length (rows_with gc k)) /\
    (forall i, i < num_rows (DataFrame_init d) ->
       exists k, In k (map fst gs) /\ In i (rows_with gc k) /\
         forall k', In k' (map fst gs) -> In i (rows_with gc k') -> k' = k) /\
    list_sum (map (fun g => num_rows (snd g)) gs)
    = num_rows (DataFrame_init d).
Proof.
  intros Hwf Hal Hget.
  pose proof (column_length d c gc Hal Hget) as Hlen.
  rewrite (group_by_spec d c gc) by trivial.
  eexists. split; [reflexivity|].
  assert (Hkeys : map fst (keyed (fun k => DataFrame_init
                     (take_rows d (rows_with gc k))) (first_seen gc))
                  = first_seen gc).
  { unfold keyed. rewrite map_map. simpl. apply map_id. }
  assert (Hd : d <> []) by (intros ->; discriminate).
  assert (Hnum : forall k, num_rows (DataFrame_init (take_rows d (rows_with gc k)))
                           = length (rows_with gc k)).
  { intros k. destruct d as [|cl d']; [congruence|]. apply num_rows_take_rows. }
  rewrite Hkeys.
  split; [trivial|].
  split; [apply first_seen_heads|].
  split; [apply first_seen_heads|].
  repeat split.
  - apply in_map_iff in H as (k' & [= <- <-] & _). simpl.
    unfold take_rows. rewrite map_map. trivial.
  - apply in_map_iff in H as (k' & [= <- <-] & _). trivial.
  - apply rows_with_sorted.
  - apply in_map_iff in H as (k' & [= <- <-] & _). apply Hnum.
  - intros i Hi. rewrite <- Hlen in Hi.
    pose proof (first_seen_covers gc _ (nth_In gc (VInt 0) Hi)) as Hc.
    apply existsb_exists in Hc as (k & Hk & Hm).
    exists k. repeat split; trivial.
    + apply In_rows_with. auto.
    + intros k' Hk' Hi'. apply In_rows_with in Hi' as [_ Hm'].
      apply (distinct_match_eq (first_seen gc)); trivial.
      * apply first_seen_distinct.
      * rewrite key_match_sym in Hm. apply (key_match_trans _ _ _ Hm' Hm).
  - unfold keyed. rewrite map_map. cbn [snd].
    rewrite (map_ext _ (fun k => length (List.filter (key_match k) gc))).
    + rewrite <- Hlen. apply group_sizes_sum.
      * apply first_seen_distinct.
      * apply first_seen_covers.
    + intros k. rewrite Hnum. apply length_rows_with.
Qed.

Lemma alignment_preserved_witness :
  dict_wf ex_data = true /\ alignedb (DataFrame_init ex_data) = true /\
  exists df',
    filter (DataFrame_init ex_data) (fun _ => true) = Ok df' /\
    alignedb df' = true.
Proof.
  split; [reflexivity|]. split; [reflexivity|].
  apply (alignment_preserved ex_data); reflexivity.
Defined.

Lemma group_by_partitions_rows_witness :
  dict_wf ex_data = true /\ alignedb (DataFrame_init ex_data) = true /\
  dict_get ex_data (VText (str "k")) = Some [VInt 1; VInt 2; VInt 1; VInt 3] /\
  exists gs,
    group_by (DataFrame_init ex_data) (VText (str "k")) = Ok gs /\
    map fst gs = [VInt 1; VInt 2; VInt 3].
Proof.
  split; [reflexivity|]. split; [reflexivity|]. split; [reflexivity|].
  destruct (group_by_partitions_rows ex_data (VText (str "k"))
              [VInt 1; VInt 2; VInt 1; VInt 3] eq_refl eq_refl eq_refl)
    as (gs & E & K & _).
  exists gs. split; [exact E|exact K].
Defined.

(** *** Which values are one key *)



Lemma dict_get_take_rows d rows c :
  dict_get (take_rows d rows) c
  = option_map (fun l => map (fun i => nth i l (VInt 0)) rows) (dict_get d c).
Proof.
  induction d as [|[k l] d IH]; simpl; trivial.
  destruct (key_match k c); trivial.
Qed.

(** *** The keys of numbers *)

















(** ** The reader on particular files *)

(** C1. The line [a,b] has one comma and only unquoted fields, and the
    tokenizer gives three fields for it, not two: after the field [b],
    which ends at the end of the line, the pattern matches the empty
    string there once more.  The line [a,] gives the two fields the
    count of commas asks for. *)
Theorem tokenizer_trailing_field :
  raw_fields (str "a,b") = [str "a"; str "b"; []] /\
  length (raw_fields (str "a,b")) = 3 /\
  raw_fields (str "a,") = [str "a"; []].
Proof. repeat split; vm_compute; reflexivity. Qed.

(** C2. [read_csv] does not look at [sep]: with the separator [;] the
    line [a;b] is one field (and the empty field after it), and the
    table read is the one read with a comma. *)
Theorem read_csv_ignores_sep :
  (forall lines sep, read_csv lines sep = read_csv lines default_sep) /\
  raw_fields (str "a;b") = [str "a;b"; []] /\
  read_csv [str "a;b" ++ nl; str "1;2" ++ nl] (str ";")
  = Ok (DataFrame_init [(VText (str "a;b"), [VText (str "1;2")]);
                        (VText [], [VText []])]).
Proof. repeat split; vm_compute; reflexivity. Qed.

Lemma read_blank_lines st bl tail : forall a,
  (forall l, In l bl -> rstrip_nl l = []) ->
  for_each (combine (seq a (length (bl ++ tail))) (bl ++ tail)) read_line st
  = for_each (combine (seq (a + length bl) (length tail)) tail) read_line st.
Proof.
  induction bl as [|l bl IH]; intros a Hbl.
  - simpl. rewrite Nat.add_0_r. trivial.
  - cbn [app length seq combine for_each]. unfold read_line at 1. cbn [fst snd].
    rewrite (Hbl l) by (simpl; auto). cbn [bind].
    rewrite IH by (intros; apply Hbl; simpl; auto).
    rewrite Nat.add_succ_r. trivial.
Qed.

(** C5. When the first line of the file is empty, the header is never
    bound, and the first line that is not empty raises
    [UnboundLocalError]: so for every file that starts with one or more
    empty lines and has a line that is not empty. *)
Theorem read_csv_blank_first_line :
  read_csv [nl; str "a,b" ++ nl; str "1,2" ++ nl] default_sep
  = Raise UnboundLocalError /\
  (forall l0 bl l1 rest sep,
     rstrip_nl l0 = [] -> (forall l, In l bl -> rstrip_nl l = []) ->
     rstrip_nl l1 <> [] ->
     read_csv (l0 :: bl ++ l1 :: rest) sep = Raise UnboundLocalError).
Proof.
  split; [vm_compute; reflexivity|].
  intros l0 bl l1 rest sep H0 Hbl H1. unfold read_csv.
  change (l0 :: bl ++ l1 :: rest) with ((l0 :: bl) ++ l1 :: rest).
  rewrite read_blank_lines by (intros l [<-|Hl]; auto).
  cbn [length seq combine for_each]. unfold read_line at 1. cbn [fst snd].
  destruct (rstrip_nl l1) as [|c s]; [congruence|].
  simpl. trivial.
Qed.

(** C6. On a file with no line, or with empty lines only, [columns] is
    still [None] when [DataFrame] is built from it, which raises
    [AttributeError]; the table of the empty dict, which the constructor
    handles, has no column and no row, and its preview does not raise. *)
Theorem read_csv_no_lines :
  read_csv [] default_sep = Raise AttributeError /\
  read_csv [nl; nl] default_sep = Raise AttributeError /\
  (forall lines sep,
     (forall l, In l lines -> rstrip_nl l = []) ->
     read_csv lines sep = Raise AttributeError) /\
  DataFrame_init [] = MkDataFrame [] [] 0 /\
  preview (DataFrame_init []) = Ok [].
Proof.
  split; [reflexivity|]. split; [vm_compute; reflexivity|].
  split; [|split; reflexivity].
  intros lines sep Hbl. unfold read_csv.
  rewrite <- (app_nil_r lines).
  rewrite read_blank_lines by trivial. simpl. trivial.
Qed.

(** ** The tokenizer *)

Lemma orelse_l {A} (x y : option A) r : x = Some r -> orelse x y = Some r.
Proof. intros ->. trivial. Qed.

Lemma orelse_r {A} (x y : option A) : x = None -> orelse x y = y.
Proof. intros ->. trivial. Qed.

Lemma is_quote_quote : is_quote quote_c = true.
Proof. reflexivity. Qed.

Lemma length_ltb_cons {A} (a : A) (s : list A) :
  (length s <? length (a :: s)) = true.
Proof. apply Nat.ltb_lt. simpl. lia. Qed.

(** A greedy star of a class takes the whole run of the class when the
    rest of the pattern matches after the run. *)
Lemma star_cls_greedy {R} p ws rest c (k : cont R) r : forall n,
  forallb p ws = true -> not_at p rest -> length ws <= n ->
  k rest c = Some r ->
  star_loop (rmatch (Cls p)) n (ws ++ rest) c k = Some r.
Proof.
  induction ws as [|a ws IH]; intros n Hp Hrest Hn Hk.
  - simpl. destruct n; simpl; trivial.
    rewrite orelse_r; trivial.
    destruct rest as [|b t]; trivial. simpl in Hrest. rewrite Hrest. trivial.
  - simpl in Hp. apply andb_true_iff in Hp as [Ha Hp].
    destruct n as [|n]; [simpl in Hn; lia|].
    simpl in Hn. cbn [star_loop app rmatch]. rewrite Ha.
    rewrite length_ltb_cons. apply orelse_l. apply IH; trivial. lia.
Qed.

Lemma length_escape_quotes_cons a c :
  length (escape_quotes c) < length (escape_quotes (a :: c)).
Proof.
  unfold escape_quotes. simpl. rewrite length_app.
  destruct (is_quote a); simpl; lia.
Qed.

(** The star of the first group takes the whole escaped content when it
    is followed by a quote that no quote follows. *)
Lemma star_quoted_body {R} c t cs (k : cont R) r : forall n,
  not_at is_quote t -> length (escape_quotes c) <= n ->
  k (quote_c :: t) cs = Some r ->
  star_loop (rmatch quoted_body) n (escape_quotes c ++ quote_c :: t) cs k
  = Some r.
Proof.
  induction c as [|a c IH]; intros n Ht Hn Hk.
  - simpl. destruct n; simpl; trivial.
    rewrite orelse_r; trivial.
    destruct t as [|b t]; trivial. simpl in Ht. rewrite Ht. trivial.
  - pose proof (length_escape_quotes_cons a c) as Hlt.
    destruct n as [|n]; [lia|].
    unfold escape_quotes in *. simpl flat_map in *.
    destruct (is_quote a) eqn:Ea.
    + cbn [star_loop app rmatch quoted_body]. rewrite is_quote_quote. simpl negb.
      cbn [orelse]. 
      rewrite !length_app. simpl length.
      replace (_ <? _) with true
        by (symmetry; apply Nat.ltb_lt; rewrite ?length_app; simpl; lia).
      apply orelse_l. apply IH; trivial. simpl in Hn. lia.
    + cbn [star_loop app rmatch quoted_body]. rewrite Ea. simpl negb.
      rewrite length_ltb_cons.
      apply orelse_l. apply orelse_l. apply IH; trivial. simpl in Hn. lia.
Qed.

Lemma firstn_app_minus {A} (a b : list A) :
  firstn (length (a ++ b) - length b) (a ++ b) = a.
Proof.
  rewrite length_app, Nat.add_sub, firstn_app, Nat.sub_diag, firstn_all.
  simpl. apply app_nil_r.
Qed.

Lemma space_not_quote a : is_space a = true -> is_quote a = false.
Proof.
  destruct a as [[] [] [] [] [] [] [] []]; vm_compute; congruence.
Qed.

Lemma space_not_comma a : is_space a = true -> is_comma a = false.
Proof.
  destruct a as [[] [] [] [] [] [] [] []]; vm_compute; congruence.
Qed.

Lemma not_at_spaces p ws tail :
  (forall a, is_space a = true -> p a = false) ->
  forallb is_space ws = true -> not_at p tail -> not_at p (ws ++ tail).
Proof.
  intros Hp Hws Ht. destruct ws as [|a ws]; trivial.
  simpl in *. apply andb_true_iff in Hws as [Ha _]. auto.
Qed.

(** The match of [pattern] at a quoted field. *)
Lemma match_quoted ws1 c ws2 tail :
  forallb is_space ws1 = true -> forallb is_space ws2 = true ->
  tail = [] \/ (exists rest, tail = comma_c :: rest) ->
  exists m,
    match_here pattern false (ws1 ++ quoted c ++ ws2 ++ tail) = Some m /\
    m_caps m 1 = Some (escape_quotes c) /\ m_caps m 2 = None /\
    m_rest m = tl tail /\ m_empty m = false.
Proof.
  intros H1 H2 Htail.
  assert (Hnq : not_at is_quote (ws2 ++ tail)).
  { apply not_at_spaces; trivial; [apply space_not_quote|].
    destruct Htail as [->|[rest ->]]; reflexivity. }
  assert (Hns : not_at is_space tail).
  { destruct Htail as [->|[rest ->]]; reflexivity. }
  unfold match_here, pattern. cbn [rmatch].
  destruct Htail as [->|[rest ->]]; (eexists; split;
   [ apply star_cls_greedy;
     [ exact H1
     | reflexivity
     | rewrite length_app; lia
     | unfold quoted; cbn [app]; rewrite is_quote_quote;
       apply orelse_l;
       rewrite <- app_assoc; cbn [app];
       apply star_quoted_body;
       [ exact Hnq
       | rewrite length_app; lia
       | rewrite is_quote_quote;
         apply star_cls_greedy;
         [ exact H2
         | exact Hns
         | rewrite length_app; lia
         | reflexivity ] ] ]
   | cbn [m_caps m_rest m_empty]; unfold set_cap; cbn [Nat.eqb];
     rewrite firstn_app_minus; repeat split;
     apply Nat.eqb_neq; repeat (rewrite length_app; cbn [length]); lia ]).
Qed.

Lemma rmatch_Cat {R} a b s c (k : cont R) :
  rmatch (Cat a b) s c k = rmatch a s c (fun s' c' => rmatch b s' c' k).
Proof. reflexivity. Qed.

Lemma rmatch_Alt {R} a b s c (k : cont R) :
  rmatch (Alt a b) s c k = orelse (rmatch a s c k) (rmatch b s c k).
Proof. reflexivity. Qed.

Lemma rmatch_Star {R} a s c (k : cont R) :
  rmatch (Star a) s c k = star_loop (rmatch a) (length s) s c k.
Proof. reflexivity. Qed.

Lemma rmatch_Grp {R} i a s c (k : cont R) :
  rmatch (Grp i a) s c k
  = rmatch a s c (fun s' c' =>
      k s' (set_cap c' i (firstn (length s - length s') s))).
Proof. reflexivity. Qed.

Lemma rmatch_Cls_fail {R} p s c (k : cont R) :
  not_at p s -> rmatch (Cls p) s c k = None.
Proof.
  destruct s as [|a t]; simpl; trivial. intros ->. trivial.
Qed.

Lemma lead_space_lstrip s : lead_space s ++ lstrip s = s.
Proof.
  induction s as [|a s IH]; simpl; trivial.
  destruct (is_space a); simpl; congruence.
Qed.

Lemma lead_space_spaces s : forallb is_space (lead_space s) = true.
Proof.
  induction s as [|a s IH]; simpl; trivial.
  destruct (is_space a) eqn:E; simpl; trivial. rewrite E. trivial.
Qed.

Lemma lstrip_not_space s : not_at is_space (lstrip s).
Proof.
  induction s as [|a s IH]; simpl; trivial.
  destruct (is_space a) eqn:E; simpl; trivial.
Qed.

Lemma forallb_lstrip p s : forallb p s = true -> forallb p (lstrip s) = true.
Proof.
  induction s as [|a s IH]; simpl; trivial.
  intros H. apply andb_true_iff in H as [Ha Hs].
  destruct (is_space a); simpl; auto. rewrite Ha. trivial.
Qed.

Lemma unquoted_not_quote a : unquoted_char a = true -> is_quote a = false.
Proof.
  unfold unquoted_char. destruct (is_quote a); simpl; congruence.
Qed.

(** The match of [pattern] at an unquoted field. *)
Lemma match_unquoted ws g tail :
  forallb is_space ws = true -> forallb unquoted_char g = true ->
  not_at is_space (g ++ tail) ->
  tail = [] \/ (exists rest, tail = comma_c :: rest) ->
  exists m,
    match_here pattern false (ws ++ g ++ tail) = Some m /\
    m_caps m 1 = None /\ m_caps m 2 = Some g /\
    m_rest m = tl tail /\
    m_empty m = (length (tl tail) =? length (ws ++ g ++ tail)).
Proof.
  intros Hws Hg Hsp Htail.
  assert (Hnq : not_at is_quote (g ++ tail)).
  { destruct g as [|a g]; simpl.
    - destruct Htail as [->|[rest ->]]; reflexivity.
    - simpl in Hg. apply andb_true_iff in Hg as [Ha _].
      apply unquoted_not_quote; trivial. }
  assert (Hnu : not_at unquoted_char tail).
  { destruct Htail as [->|[rest ->]]; reflexivity. }
  assert (Hns : not_at is_space tail).
  { destruct Htail as [->|[rest ->]]; reflexivity. }
  unfold match_here, pattern. rewrite rmatch_Cat, rmatch_Star.
  destruct Htail as [->|[rest ->]]; (eexists; split;
   [ apply star_cls_greedy;
     [ exact Hws
     | exact Hsp
     | rewrite length_app; lia
     | rewrite rmatch_Cat, rmatch_Alt, orelse_r
         by (rewrite rmatch_Cat; apply rmatch_Cls_fail; exact Hnq);
       rewrite rmatch_Grp, rmatch_Star;
       apply star_cls_greedy;
       [ exact Hg
       | exact Hnu
       | rewrite length_app; lia
       | rewrite rmatch_Cat, rmatch_Star;
         apply (star_cls_greedy is_space []);
         [ reflexivity | exact Hns | apply Nat.le_0_l | reflexivity ] ] ]
   | cbn [m_caps m_rest m_empty]; unfold set_cap; cbn [Nat.eqb];
     rewrite firstn_app_minus; repeat split ]).
Qed.

Lemma is_quote_eq a : is_quote a = true -> a = quote_c.
Proof. apply Ascii.eqb_eq. Qed.

Lemma replace_dq_unquoted g :
  forallb unquoted_char g = true -> replace_dq g = g.
Proof.
  induction g as [|a g IH]; trivial.
  intros H. simpl in H. apply andb_true_iff in H as [Ha Hg].
  simpl. destruct g as [|b g]; trivial.
  rewrite (unquoted_not_quote a Ha). simpl andb. cbv iota.
  f_equal. apply IH. trivial.
Qed.

Lemma replace_dq_escape c : replace_dq (escape_quotes c) = c.
Proof.
  induction c as [|a c IH]; trivial.
  unfold escape_quotes in *. simpl flat_map.
  destruct (is_quote a) eqn:Ea.
  - simpl. rewrite IH. rewrite (is_quote_eq a Ea). trivial.
  - simpl. rewrite Ea. simpl.
    destruct (flat_map _ c) as [|b r] eqn:E.
    + destruct c as [|a' c]; trivial. simpl in E.
      destruct (is_quote a'); discriminate.
    + rewrite IH. trivial.
Qed.

Lemma lstrip_idem s : lstrip (lstrip s) = lstrip s.
Proof.
  induction s as [|a s IH]; simpl; trivial.
  destruct (is_space a) eqn:E; trivial. simpl. rewrite E. trivial.
Qed.

Lemma group_or_first m e :
  m_caps m 1 = Some e -> m_caps m 2 = None -> group_or m = e.
Proof.
  unfold group_or. intros -> ->. destruct e; trivial.
Qed.

Lemma group_or_second m g :
  m_caps m 1 = None -> m_caps m 2 = Some g -> group_or m = g.
Proof.
  unfold group_or. intros -> ->. destruct g; trivial.
Qed.

(** The match of [pattern] at a field that a comma or the end of the
    line follows. *)
Lemma match_field x tail :
  field_ok x = true -> line_tail tail ->
  exists m,
    match_here pattern false (field_src x ++ tail) = Some m /\
    field_text m = field_val x /\
    m_rest m = tl tail /\
    m_empty m = (length (tl tail) =? length (field_src x ++ tail)).
Proof.
  intros Hok Htail.
  destruct x as [f|ws1 c ws2]; simpl in Hok; cbn [field_src field_val].
  - destruct (match_unquoted (lead_space f) (lstrip f) tail)
      as (m & Hm & H1 & H2 & Hr & He); trivial.
    + apply lead_space_spaces.
    + apply forallb_lstrip; trivial.
    + pose proof (lstrip_not_space f) as Hn.
      destruct (lstrip f); trivial.
      destruct Htail as [->|[rest ->]]; reflexivity.
    + rewrite app_assoc, lead_space_lstrip in Hm, He.
      exists m. repeat split; trivial.
      unfold field_text. rewrite (group_or_second m _ H1 H2).
      rewrite replace_dq_unquoted by (apply forallb_lstrip; trivial).
      unfold strip. rewrite lstrip_idem. trivial.
  - apply andb_true_iff in Hok as [Hw1 Hw2].
    destruct (match_quoted ws1 c ws2 tail)
      as (m & Hm & H1 & H2 & Hr & He); trivial.
    rewrite <- !app_assoc.
    exists m. repeat split; trivial.
    + unfold field_text. rewrite (group_or_first m _ H1 H2).
      rewrite replace_dq_escape. trivial.
    + rewrite He. symmetry. apply Nat.eqb_neq.
      unfold quoted. destruct Htail as [->|[rest ->]];
        repeat (rewrite length_app; cbn [length]); simpl; lia.
Qed.

Lemma search_here r adv s m :
  match_here r adv s = Some m -> search r adv s = Some m.
Proof. intros H. destruct s; simpl; rewrite H; trivial. Qed.

Lemma search_end_advance : search pattern true [] = None.
Proof. reflexivity. Qed.

Lemma tokens_at_end fuel :
  map field_text (finditer_loop (S fuel) pattern false []) = [[]].
Proof. destruct fuel; reflexivity. Qed.

Lemma tokens_loop xs : forall x fuel,
  forallb field_ok (x :: xs) = true ->
  2 * length (line_src x xs) + 2 <= fuel ->
  map field_text (finditer_loop fuel pattern false (line_src x xs))
  = line_tokens x xs.
Proof.
  induction xs as [|y ys IH]; intros x fuel Hok Hfuel.
  - simpl in Hok. rewrite andb_true_r in Hok.
    destruct (match_field x [] Hok) as (m & Hm & Hv & Hr & He);
      [left; trivial|].
    rewrite app_nil_r in Hm, He. simpl in Hr, He.
    destruct fuel as [|[|fuel]]; [simpl in Hfuel; lia ..|].
    cbn [line_src finditer_loop]. rewrite (search_here _ _ _ _ Hm).
    cbn [map line_tokens]. rewrite Hv, Hr, He. f_equal.
    destruct (field_src x) as [|a s].
    + reflexivity.
    + destruct fuel; reflexivity.
  - simpl in Hok. apply andb_true_iff in Hok as [Hx Hok].
    destruct (match_field x (comma_c :: line_src y ys) Hx)
      as (m & Hm & Hv & Hr & He); [right; eauto|].
    simpl in Hr.
    destruct fuel as [|fuel]; [lia|].
    cbn [line_src finditer_loop]. rewrite (search_here _ _ _ _ Hm).
    cbn [map line_tokens]. rewrite Hv, Hr, He. f_equal.
    replace (_ =? _) with false.
    + apply IH; trivial.
      cbn [line_src] in Hfuel. rewrite length_app in Hfuel.
      simpl in Hfuel. lia.
    + symmetry. apply Nat.eqb_neq. rewrite length_app. simpl. lia.
Qed.

(** The fields [read_csv] gets from a line of well-formed fields. *)
Lemma raw_fields_line x xs :
  forallb field_ok (x :: xs) = true ->
  raw_fields (line_src x xs) = line_tokens x xs.
Proof.
  intros Hok. unfold raw_fields, finditer. apply tokens_loop; trivial.
Qed.

Lemma nth_line_tokens xs : forall x i y,
  nth_error (x :: xs) i = Some y ->
  nth_error (line_tokens x xs) i = Some (field_val y).
Proof.
  induction xs as [|z zs IH]; intros x i y H.
  - destruct i as [|i]; simpl in *; [congruence|].
    destruct i; discriminate.
  - destruct i as [|i]; [simpl in *; congruence|].
    cbn [line_tokens nth_error]. apply IH. exact H.
Qed.

Lemma last_cons_default {A} (l : list A) : forall a x y,
  last (a :: l) x = last (a :: l) y.
Proof.
  induction l as [|b l IH]; intros a x y; trivial.
  change (last (b :: l) x = last (b :: l) y). apply IH.
Qed.

Lemma length_line_tokens xs : forall x,
  length (line_tokens x xs)
  = length xs + match field_src (last xs x) with
                | [] => 1
                | _ :: _ => 2
                end.
Proof.
  induction xs as [|z zs IH]; intros x.
  - simpl. destruct (field_src x); trivial.
  - cbn [line_tokens length]. rewrite IH.
    rewrite (last_cons_default zs z x z).
    destruct zs; trivial.
Qed.

(** C3 (counterexample). The quoted field whose content is [a] between
    two spaces gets the value [a]: the spaces inside the quotes are
    trimmed too. *)
Lemma quoted_field_not_verbatim : ~ quoted_field_verbatim (str " a ").
Proof.
  unfold quoted_field_verbatim. vm_compute. discriminate.
Qed.

Lemma length_fields_src pre : length pre <= length (fields_src pre).
Proof.
  induction pre as [|x pre IH]; simpl; trivial.
  rewrite !length_app. simpl. lia.
Qed.

(** The fields before a place of the line are matched one by one. *)
Lemma tokens_prefix pre s : forall fuel,
  forallb field_ok pre = true -> length pre <= fuel ->
  map field_text (finditer_loop fuel pattern false (fields_src pre ++ s))
  = map field_val pre
    ++ map field_text (finditer_loop (fuel - length pre) pattern false s).
Proof.
  induction pre as [|x pre IH]; intros fuel Hok Hfuel.
  - simpl. rewrite Nat.sub_0_r. trivial.
  - simpl in Hok. apply andb_true_iff in Hok as [Hx Hok].
    destruct fuel as [|fuel]; [simpl in Hfuel; lia|].
    cbn [fields_src flat_map]. fold (fields_src pre).
    rewrite <- !app_assoc. cbn [app].
    destruct (match_field x (comma_c :: fields_src pre ++ s) Hx)
      as (m & Hm & Hv & Hr & He); [right; eauto|].
    cbn [finditer_loop]. rewrite (search_here _ _ _ _ Hm).
    cbn [map length Nat.sub]. rewrite Hv, Hr, He. cbn [tl].
    replace (_ =? _) with false
      by (symmetry; apply Nat.eqb_neq;
          rewrite (length_app (field_src x)); simpl; lia).
    cbn [app]. f_equal. apply IH; trivial. simpl in Hfuel. lia.
Qed.

(** C3 (amended). A quoted field that well-formed fields precede in its
    line and that a comma or the end of the line follows: its value is
    the content between the outer quotes, each doubled double quote
    collapsed to one, with the white space at both ends of that content
    trimmed: [strip] is applied after the quotes are removed, so white
    space inside the quotes is trimmed like white space outside. *)
Theorem quoted_field_value (pre : list csv_field) (ws1 c ws2 tail : pystr) :
  forallb field_ok pre = true ->
  forallb is_space ws1 = true -> forallb is_space ws2 = true ->
  line_tail tail ->
  replace_dq (escape_quotes c) = c /\
  nth_error (raw_fields (fields_src pre ++ ws1 ++ quoted c ++ ws2 ++ tail))
            (length pre)
  = Some (strip c).
Proof.
  intros Hok H1 H2 Htail. split; [apply replace_dq_escape|].
  unfold raw_fields, finditer.
  pose proof (length_fields_src pre) as Hpre.
  rewrite tokens_prefix; trivial; [|rewrite length_app; lia].
  rewrite nth_error_app2, length_map, Nat.sub_diag by (rewrite length_map; lia).
  destruct (match_field (Quoted ws1 c ws2) tail) as (m & Hm & Hv & _);
    [simpl; rewrite H1, H2; trivial | trivial |].
  cbn [field_src] in Hm. rewrite <- !app_assoc in Hm.
  rewrite length_app.
  destruct (2 * (length (fields_src pre)
                 + length (ws1 ++ quoted c ++ ws2 ++ tail)) + 2 - length pre)
    as [|fuel] eqn:E; [lia|].
  cbn [finditer_loop]. rewrite (search_here _ _ _ _ Hm).
  simpl. rewrite Hv. trivial.
Qed.

Lemma quoted_field_value_witness :
  forallb field_ok [Unquoted (str "x")] = true /\
  line_tail (str ",y") /\
  nth_error (raw_fields (str "x," ++ quoted (str " a ") ++ str ",y")) 1
  = Some (str "a").
Proof.
  split; [reflexivity|]. split; [right; eexists; reflexivity|].
  apply (quoted_field_value [Unquoted (str "x")] [] (str " a ") [] (str ",y")
           eq_refl eq_refl eq_refl).
  right. eexists. reflexivity.
Defined.

Lemma count_comma_unquoted f :
  forallb unquoted_char f = true -> count_occ ascii_dec f comma_c = 0.
Proof.
  induction f as [|a f IH]; trivial.
  intros H. simpl in H. apply andb_true_iff in H as [Ha Hf].
  simpl. destruct (ascii_dec a comma_c) as [->|_]; [discriminate|auto].
Qed.

(** The number of fields of a line of unquoted fields: with [n] commas
    the line has [n + 1] fields, and the tokenizer returns [n + 1] values
    when the line ends with an empty field and [n + 2] otherwise. *)
Theorem unquoted_line_field_count (x : csv_field) (xs : list csv_field) :
  forallb field_ok (x :: xs) = true ->
  (forall y, In y (x :: xs) -> exists f, y = Unquoted f) ->
  count_occ ascii_dec (line_src x xs) comma_c = length xs /\
  length (raw_fields (line_src x xs))
  = length xs + match field_src (last xs x) with
                | [] => 1
                | _ :: _ => 2
                end.
Proof.
  intros Hok Hun. split.
  - revert x Hok Hun. induction xs as [|y ys IH]; intros x Hok Hun.
    + destruct (Hun x) as [f ->]; [simpl; auto|].
      simpl in *. rewrite andb_true_r in Hok.
      apply count_comma_unquoted; trivial.
    + destruct (Hun x) as [f ->]; [simpl; auto|].
      simpl in Hok. apply andb_true_iff in Hok as [Hf Hok].
      cbn [line_src field_src]. rewrite count_occ_app.
      rewrite count_comma_unquoted by trivial.
      simpl. destruct (ascii_dec comma_c comma_c) as [_|E]; [|congruence].
      rewrite IH; trivial.
      intros z Hz. apply Hun. simpl; auto.
  - rewrite raw_fields_line by trivial. apply length_line_tokens.
Qed.

Lemma unquoted_line_field_count_witness :
  forallb field_ok [Unquoted (str "a"); Unquoted (str "b")] = true /\
  count_occ ascii_dec (str "a,b") comma_c = 1 /\
  length (raw_fields (str "a,b")) = 3.
Proof.
  split; [reflexivity|].
  apply (unquoted_line_field_count (Unquoted (str "a")) [Unquoted (str "b")]
           eq_refl).
  intros y [<-|[<-|[]]]; eauto.
Defined.

(** ** [int] and [convert_value] *)













(** ** [read_csv] on a file whose first line is not empty *)

Lemma empty_columns_header header :
  empty_columns header = Ok (keyed (fun _ => []) (first_seen header)).
Proof.
  unfold empty_columns, dict_comp.
  induction header as [|v l IH] using rev_ind; trivial.
  rewrite for_each_app, IH. simpl. rewrite first_seen_snoc.
  destruct (existsb (fun k => key_match k v) (first_seen l)) eqn:E.
  - rewrite dict_set_keyed; trivial; [|apply first_seen_distinct].
    f_equal. apply map_ext. intros k. destruct (key_match k v); trivial.
  - rewrite dict_set_keyed_new by trivial.
    unfold keyed. rewrite map_app. trivial.
Qed.

Lemma cells_for_congr k k' hv :
  key_match k k' = true -> cells_for k hv = cells_for k' hv.
Proof.
  intros H. unfold cells_for. f_equal. apply filter_ext.
  intros p. apply key_match_congr. trivial.
Qed.

Lemma append_values_keyed K hv : forall T,
  keys_distinct K ->
  (forall p, In p hv -> existsb (fun k => key_match k (fst p)) K = true) ->
  for_each hv
    (fun (c : option (pydict (list Value))) (p : Value * Value) =>
       match c with
       | None => Raise TypeError
       | Some d =>
           cur <- getitem d (fst p) ;;
           Ok (Some (dict_set d (fst p) (cur ++ [snd p])))
       end)
    (Some (keyed T K))
  = Ok (Some (keyed (fun k => T k ++ cells_for k hv) K)).
Proof.
  induction hv as [|[h v] hv IH]; intros T Hd Hc.
  - simpl. do 2 f_equal. apply map_ext. intros k.
    unfold cells_for. simpl. rewrite app_nil_r. trivial.
  - pose proof (Hc (h, v) (or_introl eq_refl)) as Hh. simpl in Hh.
    apply existsb_exists in Hh as (k0 & Hk0 & Hm0).
    cbn [for_each]. unfold getitem at 1. cbn [fst snd].
    rewrite (dict_get_keyed T K h k0 Hd Hk0 Hm0). cbn [bind].
    rewrite dict_set_keyed; trivial;
      [|apply existsb_exists; exists k0; auto].
    rewrite IH; trivial; [|intros p Hp; apply Hc; simpl; auto].
    do 2 f_equal. apply map_ext_in. intros k Hk. f_equal.
    unfold cells_for. cbn [List.filter fst].
    destruct (key_match k h) eqn:E.
    + rewrite key_match_sym in Hm0.
      rewrite (distinct_match_eq K k k0 Hd Hk Hk0 (key_match_trans _ _ _ E Hm0)).
      cbn [map snd]. rewrite <- app_assoc. trivial.
    + trivial.
Qed.

Lemma combine_fst_In {A B} (l : list A) (l' : list B) p :
  In p (combine l l') -> In (fst p) l.
Proof. destruct p as [a b]. apply in_combine_l. Qed.

Lemma read_lines_keyed header rest : forall a T,
  1 <= a ->
  for_each (combine (seq a (length rest)) rest) read_line
    (MkReader (Some (keyed T (first_seen header))) (Some header))
  = Ok (MkReader
          (Some (keyed
             (fun k => T k ++ flat_map (fun vals => cells_for k (combine header vals))
                                       (data_rows a rest))
             (first_seen header)))
          (Some header)).
Proof.
  induction rest as [|l rest IH]; intros a T Ha.
  - simpl. do 3 f_equal. apply map_ext. intros k. rewrite app_nil_r. trivial.
  - cbn [length seq combine for_each data_rows].
    unfold read_line at 1. cbn [fst snd].
    destruct (rstrip_nl l) as [|c s] eqn:El.
    + cbn [bind]. apply IH. lia.
    + replace (a =? 0) with false by (symmetry; apply Nat.eqb_neq; lia).
      cbn [rs_header rs_columns]. unfold append_values.
      rewrite append_values_keyed.
      * cbn [bind]. rewrite IH by lia.
        do 3 f_equal. apply map_ext. intros k. cbn [flat_map].
        rewrite <- app_assoc. trivial.
      * apply first_seen_distinct.
      * intros p Hp. apply first_seen_covers.
        apply (combine_fst_In _ _ _ Hp).
Qed.

(** What [read_csv] returns when the first line is not empty. *)
Lemma read_csv_spec l0 rest sep :
  rstrip_nl l0 <> [] ->
  read_csv (l0 :: rest) sep
  = Ok (DataFrame_init
          (csv_columns (line_values 0 (rstrip_nl l0)) (data_rows 1 rest))).
Proof.
  intros Hne. unfold read_csv.
  cbn [length seq combine for_each]. unfold read_line at 1. cbn [fst snd].
  destruct (rstrip_nl l0) as [|c s] eqn:El; [congruence|].
  cbn [Nat.eqb]. rewrite empty_columns_header. cbn [bind].
  rewrite read_lines_keyed by lia. cbn [bind rs_columns]. trivial.
Qed.

Lemma length_cells_for h header : forall vals,
  length header <= length vals ->
  length (cells_for h (combine header vals)) = header_count h header.
Proof.
  unfold cells_for, header_count.
  induction header as [|a header IH]; intros vals Hlen; trivial.
  destruct vals as [|v vals]; [simpl in Hlen; lia|].
  simpl in *. destruct (key_match h a); simpl; rewrite IH; trivial; lia.
Qed.

Lemma length_flat_map_const {A B} (f : A -> list B) n l :
  (forall x, In x l -> length (f x) = n) ->
  length (flat_map f l) = n * length l.
Proof.
  induction l as [|x l IH]; intros H; simpl; [lia|].
  rewrite length_app, (H x) by (simpl; auto).
  rewrite IH; [lia|]. intros y Hy. apply H. simpl; auto.
Qed.

Lemma filter_match_one K x :
  keys_distinct K -> existsb (fun k => key_match k x) K = true ->
  length (List.filter (fun k => key_match k x) K) = 1.
Proof.
  intros Hd He. rewrite <- (match_count_one K x Hd He).
  clear. induction K as [|k K IH]; simpl; trivial.
  destruct (key_match k x); simpl; auto.
Qed.

(** C10. When the first line is the header and a name [h] occurs [n]
    times in it, [n] being two or more, and every data row has a field
    for every name of the header: [read_csv] returns a table with one
    column for [h], which holds, row after row, the [n] fields of the
    row that stand under [h], so it has [n] times as many cells as there
    are data rows; [num_rows] is that length when [h] is the first name;
    and the columns are not aligned when there is a data row and a name
    that occurs another number of times. *)
Theorem duplicate_header_column (l0 : pystr) (rest : list pystr)
    (sep : pystr) (h : Value) :
  rstrip_nl l0 <> [] ->
  In h (line_values 0 (rstrip_nl l0)) ->
  2 <= header_count h (line_values 0 (rstrip_nl l0)) ->
  (forall vals, In vals (data_rows 1 rest) ->
     length (line_values 0 (rstrip_nl l0)) <= length vals) ->
  exists df col,
    read_csv (l0 :: rest) sep = Ok df /\
    length (List.filter (fun c => key_match c h) (columns df)) = 1 /\
    dict_get (data df) h = Some col /\
    col = flat_map (fun vals =>
                      cells_for h (combine (line_values 0 (rstrip_nl l0)) vals))
                   (data_rows 1 rest) /\
    length col = header_count h (line_values 0 (rstrip_nl l0))
                 * length (data_rows 1 rest) /\
    (key_match (hd h (line_values 0 (rstrip_nl l0))) h = true ->
       num_rows df = length col) /\
    (data_rows 1 rest <> [] ->
     (exists h', In h' (line_values 0 (rstrip_nl l0)) /\
                 header_count h' (line_values 0 (rstrip_nl l0))
                 <> header_count h (line_values 0 (rstrip_nl l0))) ->
     alignedb df = false).
Proof.
  set (header := line_values 0 (rstrip_nl l0)).
  set (rows := data_rows 1 rest).
  intros Hne Hh Hcount Hrows.
  pose (T := fun k => flat_map (fun vals => cells_for k (combine header vals)) rows).
  assert (Hlen : forall k, length (T k) = header_count k header * length rows).
  { intros k. apply length_flat_map_const. intros vals Hv.
    apply length_cells_for. apply Hrows. trivial. }
  assert (Hcongr : forall k k', key_match k k' = true -> T k = T k').
  { intros k k' Hm. unfold T. apply flat_map_ext. intros vals.
    apply cells_for_congr. trivial. }
  assert (Hcnt : forall k k', key_match k k' = true ->
                 header_count k header = header_count k' header).
  { intros k k' Hm. unfold header_count. f_equal. apply filter_ext.
    intros x. apply key_match_congr. trivial. }
  assert (Hfind : forall x, In x header ->
            exists k0, In k0 (first_seen header) /\ key_match k0 x = true /\
                       dict_get (keyed T (first_seen header)) x = Some (T k0)).
  { intros x Hx. pose proof (first_seen_covers header x Hx) as Hc.
    apply existsb_exists in Hc as (k0 & Hk0 & Hm0). exists k0.
    repeat split; trivial.
    apply dict_get_keyed; trivial. apply first_seen_distinct. }
  destruct (Hfind h Hh) as (k0 & Hk0 & Hm0 & Hget).
  exists (DataFrame_init (csv_columns header rows)), (T k0).
  split; [apply read_csv_spec; trivial|].
  split.
  { unfold csv_columns, keyed. simpl. rewrite map_map. simpl. rewrite map_id.
    apply filter_match_one; [apply first_seen_distinct|].
    apply first_seen_covers; trivial. }
  split; [exact Hget|].
  split; [apply (Hcongr k0 h Hm0)|].
  split; [rewrite Hlen; f_equal; apply (Hcnt k0 h Hm0)|].
  split.
  - intros Hfirst. destruct header as [|a header'] eqn:Eh; [destruct Hh|].
    simpl in Hfirst. unfold csv_columns. simpl. fold T.
    f_equal. apply Hcongr.
    rewrite key_match_sym in Hm0. apply (key_match_trans _ _ _ Hfirst Hm0).
  - intros Hr (h' & Hh' & Hdiff).
    destruct (alignedb (DataFrame_init (csv_columns header rows))) eqn:Hal; trivial.
    exfalso. pose proof (proj1 (aligned_lengths _) Hal) as Hal'.
    destruct (Hfind h' Hh') as (k1 & Hk1 & Hm1 & _).
    assert (H0 : length (T k0)
                 = num_rows (DataFrame_init (csv_columns header rows))).
    { apply (Hal' (k0, T k0)). apply in_map_iff. exists k0. auto. }
    assert (H1 : length (T k1)
                 = num_rows (DataFrame_init (csv_columns header rows))).
    { apply (Hal' (k1, T k1)). apply in_map_iff. exists k1. auto. }
    rewrite <- H1, !Hlen in H0.
    rewrite (Hcnt k0 h Hm0), (Hcnt k1 h' Hm1) in H0.
    destruct rows; [congruence|]. simpl in H0. nia.
Qed.

Lemma duplicate_header_column_witness :
  rstrip_nl (str "a,a" ++ nl) <> [] /\
  In (VText (str "a")) (line_values 0 (rstrip_nl (str "a,a" ++ nl))) /\
  2 <= header_count (VText (str "a"))
         (line_values 0 (rstrip_nl (str "a,a" ++ nl))) /\
  exists df col,
    read_csv ex_dup_lines default_sep = Ok df /\
    dict_get (data df) (VText (str "a")) = Some col /\
    length col = 4 /\ num_rows df = 4 /\ alignedb df = false.
Proof.
  split; [discriminate|]. split; [left; reflexivity|].
  split; [vm_compute; lia|].
  destruct (duplicate_header_column (str "a,a" ++ nl)
              [str "1,2" ++ nl; str "3,4" ++ nl] default_sep (VText (str "a")))
    as (df & col & E & _ & Hget & _ & Hlen & Hnum & Hal).
  - discriminate.
  - left; reflexivity.
  - vm_compute; lia.
  - intros vals [<-|[<-|[]]]; vm_compute; lia.
  - exists df, col. split; [exact E|]. split; [exact Hget|].
    split; [exact Hlen|]. split.
    + rewrite (Hnum eq_refl). exact Hlen.
    + apply Hal; [discriminate|].
      exists (VText []). split; [right; right; left; reflexivity|].
      vm_compute. lia.
Defined.

(** C10 (counterexample). With the header [a,b,a] and the data row [1],
    which has no field under the second [a], the column [a] has one cell
    for one data row. *)
Lemma short_row_column_not_multiple : ~ duplicate_column_multiple ex_short_lines.
Proof.
  intros H.
  destruct (H (str "a,b,a" ++ nl) [str "1" ++ nl] (VText (str "a"))
              (DataFrame_init
                 [(VText (str "a"), [VInt 1]); (VText (str "b"), [VText []]);
                  (VText [], [])])
              [VInt 1] eq_refl eq_refl)
    as (n & Hn & E).
  - vm_compute. lia.
  - reflexivity.
  - replace (length (data_rows 1 [str "1" ++ nl])) with 1 in E
      by (vm_compute; reflexivity).
    simpl in E. lia.
Qed.

(** ** The fuel of [finditer] is enough *)

Lemma star_loop_shorter {R} (body : pystr -> caps -> cont R -> option R) :
  (forall s c k res, body s c k = Some res ->
     exists s' c', length s' <= length s /\ k s' c' = Some res) ->
  forall n s c k res, star_loop body n s c k = Some res ->
    exists s' c', length s' <= length s /\ k s' c' = Some res.
Proof.
  intros Hbody. induction n as [|n IH]; intros s c k res H; simpl in H.
  - exists s, c. auto.
  - destruct (body s c _) as [r|] eqn:E; simpl in H.
    + injection H as ->.
      destruct (Hbody _ _ _ _ E) as (s1 & c1 & Hlen & Hk).
      destruct (length s1 <? length s) eqn:Elt; [|discriminate].
      destruct (IH _ _ _ _ Hk) as (s2 & c2 & Hlen2 & Hk2).
      exists s2, c2. split; [lia|trivial].
    + exists s, c. auto.
Qed.

(** The continuation of a match is called on a rest of the input. *)
Lemma rmatch_shorter {R} r : forall s c (k : cont R) res,
  rmatch r s c k = Some res ->
  exists s' c', length s' <= length s /\ k s' c' = Some res.
Proof.
  induction r as [p|a IHa b IHb|a IHa b IHb|a IHa|i a IHa|];
    intros s c k res H; simpl in H.
  - destruct s as [|x t]; [discriminate|].
    destruct (p x); [|discriminate]. exists t, c. simpl. auto.
  - destruct (IHa _ _ _ _ H) as (s1 & c1 & Hlen1 & H1).
    destruct (IHb _ _ _ _ H1) as (s2 & c2 & Hlen2 & H2).
    exists s2, c2. split; [lia|trivial].
  - destruct (rmatch a s c k) as [r|] eqn:E; simpl in H.
    + injection H as ->. apply (IHa _ _ _ _ E).
    + apply (IHb _ _ _ _ H).
  - apply (star_loop_shorter (rmatch a) IHa _ _ _ _ _ H).
  - destruct (IHa _ _ _ _ H) as (s1 & c1 & Hlen1 & H1). eauto.
  - destruct s as [|x [|y t]]; try discriminate.
    + exists [], c. auto.
    + destruct (chr_eqb x lf_c); [|discriminate]. exists [x], c. auto.
Qed.

Lemma match_here_shorter r adv s m :
  match_here r adv s = Some m ->
  length (m_rest m) <= length s /\
  m_empty m = (length (m_rest m) =? length s) /\
  (adv = true -> m_empty m = false).
Proof.
  unfold match_here. intros H.
  destruct (rmatch_shorter r _ _ _ _ H) as (s' & c' & Hlen & Hk).
  simpl in Hk.
  destruct (adv && (length s' =? length s)) eqn:E; [discriminate|].
  injection Hk as <-. simpl. repeat split; trivial.
  intros ->. trivial.
Qed.

Lemma search_measure r : forall s adv m,
  search r adv s = Some m ->
  scan_measure (m_rest m) (m_empty m) < scan_measure s adv.
Proof.
  unfold scan_measure.
  induction s as [|a t IH]; intros adv m H; simpl in H.
  - destruct (match_here r adv []) as [m'|] eqn:E; [|discriminate].
    injection H as ->.
    destruct (match_here_shorter _ _ _ _ E) as (Hlen & He & Hadv).
    destruct (m_empty m) eqn:Em.
    + destruct adv; [specialize (Hadv eq_refl); congruence|].
      symmetry in He. apply Nat.eqb_eq in He. simpl in *. lia.
    + symmetry in He. apply Nat.eqb_neq in He. simpl in *. lia.
  - destruct (match_here r adv (a :: t)) as [m'|] eqn:E.
    + injection H as ->.
      destruct (match_here_shorter _ _ _ _ E) as (Hlen & He & Hadv).
      destruct (m_empty m) eqn:Em.
      * destruct adv; [specialize (Hadv eq_refl); congruence|].
        symmetry in He. apply Nat.eqb_eq in He. simpl in *. lia.
      * symmetry in He. apply Nat.eqb_neq in He.
        destruct adv; simpl in *; lia.
    + specialize (IH false m H). destruct adv; simpl in *; lia.
Qed.

Lemma finditer_loop_fuel r : forall fuel fuel' adv s,
  scan_measure s adv <= fuel -> scan_measure s adv <= fuel' ->
  finditer_loop fuel r adv s = finditer_loop fuel' r adv s.
Proof.
  induction fuel as [|fuel IH]; intros fuel' adv s H H'.
  - unfold scan_measure in H. destruct adv; lia.
  - destruct fuel' as [|fuel']; [unfold scan_measure in H'; destruct adv; lia|].
    simpl. destruct (search r adv s) as [m|] eqn:E; trivial.
    pose proof (search_measure r s adv m E) as Hm.
    f_equal. apply IH; lia.
Qed.

(** [finditer] has the fuel for all the matches of its line: more fuel
    gives the same matches. *)
Lemma finditer_fuel_enough r s fuel :
  2 * length s + 2 <= fuel -> finditer_loop fuel r false s = finditer r s.
Proof.
  intros H. unfold finditer. apply finditer_loop_fuel; unfold scan_measure; lia.
Qed.

(** ** [float] *)




























(** ** More on [filter], [read_csv] and the tokenizer *)

(** [filter] on a table whose columns all have [num_rows] cells returns
    the table of the rows on which the predicate holds, in their order,
    with all the columns. *)
Theorem filter_keeps_rows (d : pydict (list Value))
    (func : pydict Value -> bool) :
  dict_wf d = true -> alignedb (DataFrame_init d) = true ->
  filter (DataFrame_init d) func
  = Ok (DataFrame_init
          (take_rows d (List.filter (fun i => func (row_of d i))
                                    (seq 0 (num_rows (DataFrame_init d)))))).
Proof.
  apply filter_spec.
Qed.

Lemma filter_keeps_rows_witness :
  dict_wf ex_data = true /\ alignedb (DataFrame_init ex_data) = true /\
  filter (DataFrame_init ex_data) ex_pred
  = Ok (DataFrame_init
          [(VText (str "k"), [VInt 2; VInt 1; VInt 3]);
           (VText (str "v"), [VInt 20; VInt 30; VInt 40])]).
Proof.
  split; [reflexivity|]. split; [reflexivity|].
  exact (filter_keeps_rows ex_data ex_pred eq_refl eq_refl).
Defined.

(** [read_csv] on a file whose first line is not empty returns a table:
    its columns are the distinct names of the header in the order of
    their first occurrence, and the column of a name holds, row after
    row, the values that stand under that name, as far as the row goes. *)
Theorem read_csv_table (l0 : pystr) (rest : list pystr) (sep : pystr) :
  rstrip_nl l0 <> [] ->
  read_csv (l0 :: rest) sep
  = Ok (DataFrame_init
          (csv_columns (line_values 0 (rstrip_nl l0)) (data_rows 1 rest))).
Proof.
  apply read_csv_spec.
Qed.

Lemma read_csv_table_witness :
  rstrip_nl (str "a,b" ++ nl) <> [] /\
  read_csv [str "a,b" ++ nl; str "1,2" ++ nl] default_sep
  = Ok (DataFrame_init
          [(VText (str "a"), [VInt 1]); (VText (str "b"), [VInt 2]);
           (VText [], [VText []])]).
Proof.
  assert (H : rstrip_nl (str "a,b" ++ nl) <> []) by (vm_compute; discriminate).
  split; [exact H|].
  exact (read_csv_table (str "a,b" ++ nl) [str "1,2" ++ nl] default_sep H).
Defined.

(** The matches of a line are all found: [finditer] scans with a bound
    on the number of matches, and any larger bound gives the same
    matches. *)
Theorem finditer_bound_enough (r : regex) (s : pystr) (fuel : nat) :
  2 * length s + 2 <= fuel -> finditer_loop fuel r false s = finditer r s.
Proof.
  apply finditer_fuel_enough.
Qed.

Lemma finditer_bound_enough_witness :
  2 * length (str "a,b") + 2 <= 20 /\
  map field_text (finditer_loop 20 pattern false (str "a,b"))
  = [str "a"; str "b"; []].
Proof.
  assert (H : 2 * length (str "a,b") + 2 <= 20) by (simpl; lia).
  split; [exact H|].
  rewrite (finditer_bound_enough pattern (str "a,b") 20 H).
  reflexivity.
Defined.

(** ** Rows, previews and the edges of [filter] and [group_by] *)

Lemma dict_get_row_of d i c :
  dict_get (row_of d i) c
  = option_map (fun l => nth i l (VInt 0)) (dict_get d c).
Proof.
  induction d as [|[k l] d IH]; simpl; trivial.
  destruct (key_match k c); trivial.
Qed.

(** [row] on a table whose columns all have [num_rows] cells: an index
    below 0 or from [num_rows] on raises [IndexError]; any other index
    gives the dict that has the columns of the table for its keys, in
    their order, and under each the cell of that column at the index. *)
Theorem row_in_range (d : pydict (list Value)) (index : Z) :
  dict_wf d = true -> alignedb (DataFrame_init d) = true ->
  ((index < 0 \/ Z.of_nat (num_rows (DataFrame_init d)) <= index)%Z ->
   row_int (DataFrame_init d) index = Raise IndexError) /\
  ((0 <= index < Z.of_nat (num_rows (DataFrame_init d)))%Z ->
   exists r,
     row_int (DataFrame_init d) index = Ok r /\
     map fst r = columns (DataFrame_init d) /\
     forall c col, dict_get d c = Some col ->
       dict_get r c = Some (nth (Z.to_nat index) col (VInt 0))).
Proof.
  intros Hwf Hal. unfold row_int. split.
  - intros H.
    destruct (index <? 0)%Z eqn:E1; trivial.
    destruct (Z.of_nat (num_rows (DataFrame_init d)) <=? index)%Z eqn:E2;
      trivial.
    apply Z.ltb_ge in E1. apply Z.leb_gt in E2. lia.
  - intros [H0 Hn].
    replace (index <? 0)%Z with false by (symmetry; apply Z.ltb_ge; lia).
    replace (Z.of_nat (num_rows (DataFrame_init d)) <=? index)%Z with false
      by (symmetry; apply Z.leb_gt; lia).
    cbn [orb]. exists (row_of d (Z.to_nat index)). split; [|split].
    + apply row_dict_row_of; trivial.
      intros cl Hcl. rewrite (proj1 (aligned_lengths d) Hal cl Hcl). lia.
    + unfold row_of. simpl columns. rewrite map_map. trivial.
    + intros c col Hc. rewrite dict_get_row_of, Hc. trivial.
Qed.

Lemma row_in_range_witness :
  dict_wf ex_data = true /\ alignedb (DataFrame_init ex_data) = true /\
  row_int (DataFrame_init ex_data) 4 = Raise IndexError /\
  row_int (DataFrame_init ex_data) (-1) = Raise IndexError /\
  exists r,
    row_int (DataFrame_init ex_data) 2 = Ok r /\
    dict_get r (VText (str "v")) = Some (VInt 30).
Proof.
  split; [reflexivity|]. split; [reflexivity|].
  destruct (row_in_range ex_data 4 eq_refl eq_refl) as [H4 _].
  destruct (row_in_range ex_data (-1) eq_refl eq_refl) as [H1 _].
  destruct (row_in_range ex_data 2 eq_refl eq_refl) as [_ H2].
  split; [apply H4; right; simpl; lia|].
  split; [apply H1; left; lia|].
  destruct H2 as (r & E & _ & Hr); [simpl; lia|].
  exists r. split; [exact E|].
  apply (Hr (VText (str "v")) [VInt 10; VInt 20; VInt 30; VInt 40]).
  reflexivity.
Defined.

(** The preview that [__repr__] formats is built without an error,
    whatever the lengths of the columns: it has the columns of the table
    in their order, each cut to its first [min(5, num_rows)] cells, so
    no more than five. *)
Theorem preview_first_rows (d : pydict (list Value)) :
  dict_wf d = true ->
  preview (DataFrame_init d)
  = Ok (head_rows d (Nat.min 5 (num_rows (DataFrame_init d)))) /\
  forall c col,
    dict_get (head_rows d (Nat.min 5 (num_rows (DataFrame_init d)))) c
    = Some col -> length col <= 5.
Proof.
  intros Hwf. split.
  - unfold preview, dict_comp.
    set (n := Nat.min 5 (num_rows (DataFrame_init d))).
    rewrite (dict_comp_fresh _
      (fun k => match dict_get d k with
                | Some l => firstn n l
                | None => []
                end)); simpl.
    + f_equal. unfold head_rows. rewrite map_map. apply map_ext_in.
      intros [k l] Hin. simpl. rewrite (dict_get_wf_In _ _ _ Hwf Hin). trivial.
    + intros k Hk. apply in_map_iff in Hk as ([k' l] & <- & Hin). simpl.
      unfold getitem. rewrite (dict_get_wf_In _ _ _ Hwf Hin). trivial.
    + apply dict_wf_distinct; trivial.
    + intros k _ k' [].
  - generalize (num_rows (DataFrame_init d)). intros n c col Hc.
    apply dict_get_In in Hc as (k & Hin & _).
    apply in_map_iff in Hin as (cl & E & _).
    apply (f_equal snd) in E. cbn [snd] in E. subst col.
    rewrite length_firstn. lia.
Qed.

Lemma preview_first_rows_witness :
  dict_wf ex_mixed = true /\
  preview (DataFrame_init ex_mixed) = Ok (head_rows ex_mixed 3).
Proof.
  split; [reflexivity|].
  exact (proj1 (preview_first_rows ex_mixed eq_refl)).
Defined.

Lemma map_nth_seq {A} (l : list A) x :
  map (fun i => nth i l x) (seq 0 (length l)) = l.
Proof.
  induction l as [|a l IH]; trivial.
  simpl. f_equal. rewrite <- seq_shift, map_map. exact IH.
Qed.

Lemma filter_all {A} (l : list A) : List.filter (fun _ => true) l = l.
Proof. induction l; simpl; congruence. Qed.

Lemma filter_nothing {A} (l : list A) : List.filter (fun _ => false) l = [].
Proof. induction l; simpl; congruence. Qed.

Lemma take_rows_all d n :
  (forall cl, In cl d -> length (snd cl) = n) -> take_rows d (seq 0 n) = d.
Proof.
  intros H. unfold take_rows. rewrite <- (map_id d) at 2.
  apply map_ext_in. intros [k l] Hin. simpl.
  rewrite <- (H _ Hin). simpl. rewrite map_nth_seq. trivial.
Qed.

(** [filter] with a predicate that holds on every row returns the table
    itself, and with a predicate that holds on no row the table of the
    same columns with no cell and [num_rows] 0. *)
Theorem filter_all_or_nothing (d : pydict (list Value)) :
  dict_wf d = true -> alignedb (DataFrame_init d) = true ->
  filter (DataFrame_init d) (fun _ => true) = Ok (DataFrame_init d) /\
  exists df',
    filter (DataFrame_init d) (fun _ => false) = Ok df' /\
    columns df' = columns (DataFrame_init d) /\
    num_rows df' = 0 /\
    forall c, dict_in d c = true -> dict_get (data df') c = Some [].
Proof.
  intros Hwf Hal. split.
  - rewrite filter_spec by trivial. rewrite filter_all.
    rewrite take_rows_all; trivial.
    apply aligned_lengths; trivial.
  - rewrite filter_spec by trivial. rewrite filter_nothing.
    eexists. split; [reflexivity|]. split; [|split].
    + simpl. unfold take_rows. rewrite map_map. trivial.
    + simpl. destruct d as [|[k l] d]; trivial.
    + intros c Hc. cbn [data DataFrame_init]. rewrite dict_get_take_rows.
      unfold dict_in in Hc. destruct (dict_get d c); [trivial|discriminate].
Qed.

Lemma filter_all_or_nothing_witness :
  dict_wf ex_data = true /\ alignedb (DataFrame_init ex_data) = true /\
  filter (DataFrame_init ex_data) (fun _ => true) = Ok (DataFrame_init ex_data).
Proof.
  split; [reflexivity|]. split; [reflexivity|].
  exact (proj1 (filter_all_or_nothing ex_data eq_refl eq_refl)).
Defined.

(** [group_by] looks the grouping column up once per row: on a table
    with no row it returns the empty dict, also for a name that is no
    column; on a table with rows a name that is no column raises
    [KeyError]. *)
Theorem group_by_missing_column (d : pydict (list Value)) (c : Value) :
  (num_rows (DataFrame_init d) = 0 -> group_by (DataFrame_init d) c = Ok []) /\
  (0 < num_rows (DataFrame_init d) -> dict_in d c = false ->
   group_by (DataFrame_init d) c = Raise KeyError).
Proof.
  unfold group_by. split.
  - intros ->. reflexivity.
  - intros Hn Hc.
    destruct (num_rows (DataFrame_init d)) as [|n]; [lia|].
    cbn [seq for_each]. unfold group_by_step at 1, getitem.
    cbn [data DataFrame_init]. unfold dict_in in Hc.
    destruct (dict_get d c); [discriminate|]. reflexivity.
Qed.

Lemma group_by_missing_column_witness :
  group_by (DataFrame_init []) (VText (str "k")) = Ok [] /\
  group_by (DataFrame_init ex_data) (VText (str "w")) = Raise KeyError.
Proof.
  split.
  - apply (proj1 (group_by_missing_column [] (VText (str "k")))). reflexivity.
  - apply (proj2 (group_by_missing_column ex_data (VText (str "w")))).
    + simpl. lia.
    + reflexivity.
Defined.

(** ** [select] and [aggregate] *)

Lemma dict_get_congr {A} (d : pydict A) a b :
  key_match a b = true -> dict_get d a = dict_get d b.
Proof.
  intros H. induction d as [|[k v] d IH]; simpl; trivial.
  rewrite (key_match_sym k a), (key_match_sym k b).
  rewrite (key_match_congr a b k H), IH. trivial.
Qed.

(** A comprehension whose values depend on the key as a dict sees it has
    one entry per distinct key, at the place of its first occurrence. *)
Lemma dict_comp_keyed {A} (f : Value -> result A) (T : Value -> A) ks :
  (forall k, In k ks -> f k = Ok (T k)) ->
  (forall k k', key_match k k' = true -> T k = T k') ->
  dict_comp ks f = Ok (keyed T (first_seen ks)).
Proof.
  intros Hf HT. unfold dict_comp.
  induction ks as [|v l IH] using rev_ind; trivial.
  rewrite for_each_app, IH by (intros; apply Hf, in_or_app; auto).
  simpl. rewrite (Hf v) by (apply in_or_app; simpl; auto). simpl.
  rewrite first_seen_snoc.
  destruct (existsb (fun k => key_match k v) (first_seen l)) eqn:E.
  - rewrite dict_set_keyed; trivial; [|apply first_seen_distinct].
    f_equal. apply map_ext. intros k.
    destruct (key_match k v) eqn:Ek; trivial.
    rewrite (HT k v Ek). trivial.
  - rewrite dict_set_keyed_new by trivial.
    unfold keyed. rewrite map_app. trivial.
Qed.

Lemma column_of_congr d k k' :
  key_match k k' = true -> column_of d k = column_of d k'.
Proof.
  intros H. unfold column_of. rewrite (dict_get_congr d k k' H). trivial.
Qed.

Lemma select_keyed d cols :
  (forall c, In c cols -> dict_in d c = true) ->
  select (DataFrame_init d) cols
  = Ok (DataFrame_init (keyed (column_of d) (first_seen cols))).
Proof.
  intros Hin. unfold select.
  rewrite (dict_comp_keyed _ (column_of d)); trivial.
  - intros k Hk. specialize (Hin k Hk). unfold dict_in in Hin.
    unfold getitem, column_of. cbn [data DataFrame_init].
    destruct (dict_get d k); [trivial|discriminate].
  - apply column_of_congr.
Qed.

Lemma dict_get_selected d cols c :
  In c cols -> dict_in d c = true ->
  dict_get (keyed (column_of d) (first_seen cols)) c = dict_get d c.
Proof.
  intros Hc Hin.
  pose proof (first_seen_covers cols c Hc) as E.
  apply existsb_exists in E as (k0 & Hk0 & Hm).
  rewrite (dict_get_keyed (column_of d) _ c k0);
    trivial; [|apply first_seen_distinct].
  rewrite (column_of_congr d k0 c Hm). unfold column_of.
  unfold dict_in in Hin. destruct (dict_get d c); [trivial|discriminate].
Qed.

(** [select] with names that are all columns returns the table of those
    columns: one column per distinct name, in the order in which the
    names first occur, each with the cells it has in the original; a
    name that was not selected is no column of the result.  The result
    has the rows of the original, except that selecting no column gives
    [num_rows] 0. *)
Theorem select_columns (d : pydict (list Value)) (cols : list Value) :
  (forall c, In c cols -> dict_in d c = true) ->
  exists df',
    select (DataFrame_init d) cols = Ok df' /\
    columns df' = first_seen cols /\
    (forall c, In c cols ->
       DataFrame_getitem df' c = DataFrame_getitem (DataFrame_init d) c) /\
    (forall c, no_key cols c -> DataFrame_getitem df' c = Raise KeyError) /\
    (cols = [] -> num_rows df' = 0) /\
    (alignedb (DataFrame_init d) = true -> cols <> [] ->
     num_rows df' = num_rows (DataFrame_init d)).
Proof.
  intros Hin. rewrite select_keyed by trivial.
  eexists. split; [reflexivity|]. split; [|split; [|split; [|split]]].
  - cbn [columns DataFrame_init]. unfold keyed. rewrite map_map.
    apply map_id.
  - intros c Hc. unfold DataFrame_getitem, getitem. cbn [data DataFrame_init].
    rewrite dict_get_selected; auto.
  - intros c Hc. unfold DataFrame_getitem, getitem. cbn [data DataFrame_init].
    replace (dict_get (keyed (column_of d) (first_seen cols)) c)
      with (@None (list Value)); trivial.
    symmetry. apply dict_get_None. unfold keyed. rewrite map_map, map_id.
    intros k Hk. apply Hc. apply first_seen_In. trivial.
  - intros ->. reflexivity.
  - intros Hal Hne. destruct cols as [|c t]; [congruence|].
    cbn [first_seen keyed map num_rows DataFrame_init].
    specialize (Hin c (or_introl eq_refl)). unfold dict_in in Hin.
    unfold column_of. destruct (dict_get d c) as [gc|] eqn:E; [|discriminate].
    apply (column_length d c gc Hal E).
Qed.

Lemma select_columns_witness :
  exists df',
    select (DataFrame_init ex_data) [VText (str "v"); VText (str "v")]
    = Ok df' /\
    columns df' = [VText (str "v")].
Proof.
  destruct (select_columns ex_data [VText (str "v"); VText (str "v")])
    as (df' & E & C & _).
  - intros c [<-|[<-|[]]]; reflexivity.
  - exists df'. split; [exact E|exact C].
Defined.

Lemma select_loop_missing d c cols : forall t,
  In c cols -> dict_in d c = false ->
  for_each cols
    (fun (t : pydict (list Value)) k =>
       v <- getitem d k ;; Ok (dict_set t k v)) t
  = Raise KeyError.
Proof.
  induction cols as [|k cols IH]; intros t Hc Hm; [destruct Hc|].
  simpl. unfold getitem at 1.
  destruct (dict_get d k) as [l|] eqn:E; simpl; trivial.
  destruct Hc as [->|Hc]; [|apply IH; trivial].
  unfold dict_in in Hm. rewrite E in Hm. discriminate.
Qed.

(** [select] with a name that is no column raises [KeyError], wherever
    the name stands among the names. *)
Theorem select_missing_column (d : pydict (list Value)) (cols : list Value)
    (c : Value) :
  In c cols -> dict_in d c = false ->
  select (DataFrame_init d) cols = Raise KeyError.
Proof.
  intros Hc Hm. unfold select, dict_comp. cbn [data DataFrame_init].
  rewrite (select_loop_missing d c cols [] Hc Hm). reflexivity.
Qed.

Lemma select_missing_column_witness :
  select (DataFrame_init ex_data) [VText (str "k"); VText (str "w")]
  = Raise KeyError.
Proof.
  apply (select_missing_column ex_data _ (VText (str "w"))).
  - simpl. auto.
  - reflexivity.
Defined.

(** [aggregate] applies the reducer to the whole column, and raises
    [KeyError] for a name that is no column; on a selection that holds
    the column it gives what it gives on the original table. *)
Theorem aggregate_column (A : Type) (d : pydict (list Value))
    (cols : list Value) (c : Value) (func : list Value -> A) :
  (forall c', In c' cols -> dict_in d c' = true) -> In c cols ->
  exists df' col,
    select (DataFrame_init d) cols = Ok df' /\
    dict_get d c = Some col /\
    aggregate (DataFrame_init d) c func = Ok (func col) /\
    aggregate df' c func = Ok (func col) /\
    forall c', dict_in d c' = false ->
      aggregate (DataFrame_init d) c' func = Raise KeyError.
Proof.
  intros Hin Hc. rewrite select_keyed by trivial.
  pose proof (Hin c Hc) as Hd. unfold dict_in in Hd.
  destruct (dict_get d c) as [col|] eqn:E; [|discriminate].
  exists (DataFrame_init (keyed (column_of d) (first_seen cols))), col.
  split; [reflexivity|]. split; [reflexivity|].
  unfold aggregate, getitem. cbn [data DataFrame_init].
  rewrite dict_get_selected by (trivial; unfold dict_in; rewrite E; trivial).
  rewrite E. split; [reflexivity|]. split; [reflexivity|].
  intros c' Hc'. unfold dict_in in Hc'.
  destruct (dict_get d c'); [discriminate|reflexivity].
Qed.

Lemma aggregate_column_witness :
  exists df',
    select (DataFrame_init ex_data) [VText (str "v")] = Ok df' /\
    aggregate df' (VText (str "v")) (@length Value) = Ok 4.
Proof.
  destruct (aggregate_column nat ex_data [VText (str "v")] (VText (str "v"))
              (@length Value))
    as (df' & col & E & Hcol & _ & Hagg & _).
  - intros c [<-|[]]; reflexivity.
  - simpl; auto.
  - exists df'. split; [exact E|].
    rewrite Hagg. injection Hcol as <-. reflexivity.
Defined.

(** ** How [filter] and [group_by] compose *)

Lemma dict_in_take_rows d rows k :
  dict_in (take_rows d rows) k = dict_in d k.
Proof.
  unfold dict_in. rewrite dict_get_take_rows.
  destruct (dict_get d k); trivial.
Qed.

Lemma dict_wf_take_rows d rows : dict_wf (take_rows d rows) = dict_wf d.
Proof.
  induction d as [|[k l] d IH]; trivial.
  cbn [take_rows map dict_wf fst snd]. fold (take_rows d rows).
  rewrite dict_in_take_rows, IH. trivial.
Qed.

Lemma nth_map_default {A B} (f : A -> B) (l : list A) j x y :
  j < length l -> nth j (map f l) y = f (nth j l x).
Proof.
  intros H. rewrite (nth_indep _ y (f x)) by (rewrite length_map; trivial).
  apply map_nth.
Qed.

Lemma row_of_take_rows d rows j :
  j < length rows -> row_of (take_rows d rows) j = row_of d (nth j rows 0).
Proof.
  intros H. unfold row_of, take_rows. rewrite map_map.
  apply map_ext. intros [k l]. cbn [fst snd]. f_equal.
  apply (nth_map_default (fun i => nth i l (VInt 0))). trivial.
Qed.

Lemma take_rows_take_rows d rows rows2 :
  (forall j, In j rows2 -> j < length rows) ->
  take_rows (take_rows d rows) rows2
  = take_rows d (map (fun j => nth j rows 0) rows2).
Proof.
  intros H. unfold take_rows. rewrite map_map.
  apply map_ext. intros [k l]. cbn [fst snd]. f_equal.
  rewrite map_map. apply map_ext_in. intros j Hj.
  apply (nth_map_default (fun i => nth i l (VInt 0))). auto.
Qed.

Lemma filter_map_comm {A B} (f : A -> B) (p : B -> bool) (l : list A) :
  List.filter p (map f l) = map f (List.filter (fun a => p (f a)) l).
Proof.
  induction l as [|a l IH]; trivial.
  simpl. destruct (p (f a)); simpl; congruence.
Qed.

Lemma filter_nth_seq {A} (p : A -> bool) (l : list A) x :
  map (fun j => nth j l x)
      (List.filter (fun j => p (nth j l x)) (seq 0 (length l)))
  = List.filter p l.
Proof.
  induction l as [|a l IH]; trivial.
  cbn [length seq List.filter nth].
  rewrite <- seq_shift, filter_map_comm.
  destruct (p a); cbn [map nth]; rewrite map_map; cbn [nth]; rewrite IH;
    trivial.
Qed.

Lemma filter_filter_and {A} (p q : A -> bool) (l : list A) :
  List.filter p (List.filter q l) = List.filter (fun a => q a && p a) l.
Proof.
  induction l as [|a l IH]; trivial.
  simpl. destruct (q a); simpl; [destruct (p a)|]; congruence.
Qed.

(** Filtering twice is filtering once by both predicates: [filter] with
    [q] and then with [p] returns what [filter] returns with the
    predicate that holds when [q] and [p] both hold. *)
Theorem filter_twice (d : pydict (list Value))
    (q p : pydict Value -> bool) :
  dict_wf d = true -> alignedb (DataFrame_init d) = true ->
  exists df1,
    filter (DataFrame_init d) q = Ok df1 /\
    filter df1 p = filter (DataFrame_init d) (fun r => q r && p r).
Proof.
  intros Hwf Hal. rewrite !filter_spec by trivial.
  eexists. split; [reflexivity|].
  set (n := num_rows (DataFrame_init d)).
  set (rows1 := List.filter (fun i => q (row_of d i)) (seq 0 n)).
  rewrite filter_spec;
    [|rewrite dict_wf_take_rows; trivial|apply aligned_take_rows].
  f_equal. f_equal.
  destruct d as [|cl d']; [reflexivity|].
  rewrite num_rows_take_rows.
  rewrite (filter_ext_in
             (fun j => p (row_of (take_rows (cl :: d') rows1) j))
             (fun j => p (row_of (cl :: d') (nth j rows1 0)))).
  - rewrite take_rows_take_rows.
    + rewrite (filter_nth_seq (fun i => p (row_of (cl :: d') i)) rows1 0).
      unfold rows1. rewrite filter_filter_and. trivial.
    + intros j Hj. apply filter_In in Hj as [Hj _]. apply in_seq in Hj. lia.
  - intros j Hj. apply in_seq in Hj.
    rewrite row_of_take_rows by lia. trivial.
Qed.

Lemma filter_twice_witness :
  exists df1,
    filter (DataFrame_init ex_data) ex_pred = Ok df1 /\
    filter df1 (cell_is (VText (str "k")) (VInt 1))
    = filter (DataFrame_init ex_data)
        (fun r => ex_pred r && cell_is (VText (str "k")) (VInt 1) r).
Proof.
  exact (filter_twice ex_data ex_pred (cell_is (VText (str "k")) (VInt 1))
           eq_refl eq_refl).
Defined.

Lemma rows_with_congr gc k k' :
  key_match k k' = true -> rows_with gc k = rows_with gc k'.
Proof.
  intros H. unfold rows_with. apply filter_ext.
  intros i. apply key_match_congr. trivial.
Qed.

(** A group of [group_by] is a [filter]: the table stored under the key
    of a cell [k] of the grouping column [c] is the table [filter]
    returns for the rows whose cell of [c] is equal to [k] as a dict
    key. *)
Theorem group_is_filter (d : pydict (list Value)) (c : Value)
    (gc : list Value) (k : Value) :
  dict_wf d = true -> alignedb (DataFrame_init d) = true ->
  dict_get d c = Some gc -> In k gc ->
  exists gs sub,
    group_by (DataFrame_init d) c = Ok gs /\
    dict_get gs k = Some sub /\
    filter (DataFrame_init d) (cell_is c k) = Ok sub.
Proof.
  intros Hwf Hal Hc Hk.
  rewrite (group_by_spec d c gc) by trivial.
  pose proof (first_seen_covers gc k Hk) as E.
  apply existsb_exists in E as (k0 & Hk0 & Hm).
  eexists. eexists. split; [reflexivity|]. split.
  - apply (dict_get_keyed _ _ k k0); trivial. apply first_seen_distinct.
  - rewrite filter_spec by trivial. do 3 f_equal.
    rewrite (rows_with_congr gc k0 k Hm). unfold rows_with.
    rewrite (column_length d c gc Hal Hc).
    apply filter_ext. intros i. unfold cell_is.
    rewrite dict_get_row_of, Hc. trivial.
Qed.

Lemma group_is_filter_witness :
  exists gs sub,
    group_by (DataFrame_init ex_data) (VText (str "k")) = Ok gs /\
    dict_get gs (VInt 1) = Some sub /\
    filter (DataFrame_init ex_data) (cell_is (VText (str "k")) (VInt 1))
    = Ok sub.
Proof.
  apply (group_is_filter ex_data (VText (str "k"))
           [VInt 1; VInt 2; VInt 1; VInt 3] (VInt 1) eq_refl eq_refl eq_refl).
  simpl. auto.
Defined.

(** ** Tables with a column that is too short *)

Lemma index_short {A} (l : list A) i : length l <= i -> index l i = Raise IndexError.
Proof.
  intros H. unfold index. apply nth_error_None in H. rewrite H. trivial.
Qed.

Lemma row_loop_short (d : pydict (list Value)) i ks : forall t,
  (forall k, In k ks -> exists l, dict_get d k = Some l) ->
  (exists k l, In k ks /\ dict_get d k = Some l /\ length l <= i) ->
  for_each ks
    (fun (t : pydict Value) k =>
       v <- (l <- getitem d k ;; index l i) ;; Ok (dict_set t k v)) t
  = Raise IndexError.
Proof.
  induction ks as [|k ks IH]; intros t Hall (k' & l' & Hin & Hg & Hlen).
  - destruct Hin.
  - simpl. destruct (Hall k) as [l Hl]; [simpl; auto|].
    unfold getitem at 1. rewrite Hl. cbn [bind].
    destruct (Nat.le_gt_cases (length l) i) as [Hs|Hs].
    + rewrite index_short by trivial. reflexivity.
    + rewrite (index_nth l i (VInt 0)) by lia. cbn [bind].
      apply IH.
      * intros k0 Hk0. apply Hall. simpl; auto.
      * destruct Hin as [->|Hin]; [|eauto].
        rewrite Hl in Hg. injection Hg as ->. lia.
Qed.

Lemma row_dict_short d i cl :
  dict_wf d = true -> In cl d -> length (snd cl) <= i ->
  row_dict (DataFrame_init d) i = Raise IndexError.
Proof.
  intros Hwf Hin Hlen. unfold row_dict, dict_comp.
  cbn [columns data DataFrame_init]. apply row_loop_short.
  - intros k Hk. apply in_map_iff in Hk as ([k' l] & <- & Hkl).
    exists l. apply dict_get_wf_In; trivial.
  - destruct cl as [k l]. exists k, l. split; [|split]; trivial.
    + apply in_map_iff. exists (k, l). auto.
    + apply dict_get_wf_In; trivial.
Qed.

Lemma shortest_column (d : pydict (list Value)) cl :
  In cl d ->
  exists cl0, In cl0 d /\ forall cl', In cl' d ->
    length (snd cl0) <= length (snd cl').
Proof.
  revert cl. induction d as [|a d IH]; intros cl Hin; [destruct Hin|].
  destruct d as [|b d'].
  - exists a. split; [simpl; auto|]. intros cl' [<-|[]]. lia.
  - destruct (IH b) as (c0 & Hc0 & Hmin); [simpl; auto|].
    destruct (Nat.le_gt_cases (length (snd a)) (length (snd c0))) as [H|H].
    + exists a. split; [simpl; auto|].
      intros cl' [<-|Hcl']; [lia|]. specialize (Hmin cl' Hcl'). lia.
    + exists c0. split; [simpl; auto|].
      intros cl' [<-|Hcl']; [lia|]. auto.
Qed.

(** A table with a column that has fewer cells than [num_rows], the
    length of the first column: [filter] raises [IndexError] whatever the
    predicate is, also one that holds on no row, and [row] raises
    [IndexError] at the index where that column ends, although the index
    is below [num_rows]. *)
Theorem short_column_raises (d : pydict (list Value))
    (cl : Value * list Value) :
  dict_wf d = true -> In cl d ->
  length (snd cl) < num_rows (DataFrame_init d) ->
  (forall func, filter (DataFrame_init d) func = Raise IndexError) /\
  row_int (DataFrame_init d) (Z.of_nat (length (snd cl))) = Raise IndexError.
Proof.
  intros Hwf Hin Hlen. split.
  - intros func.
    destruct (shortest_column d cl Hin) as (c0 & Hc0 & Hmin).
    set (m := length (snd c0)).
    assert (Hm : m < num_rows (DataFrame_init d))
      by (specialize (Hmin cl Hin); unfold m; lia).
    unfold filter. cbn [columns DataFrame_init].
    rewrite empty_columns_take by trivial. cbn [bind].
    replace (num_rows (DataFrame_init d))
      with (m + S (num_rows (DataFrame_init d) - S m)) by lia.
    rewrite seq_app, for_each_app.
    rewrite filter_loop; trivial.
    + cbn [bind seq for_each Nat.add].
      rewrite (row_dict_short d m c0) by (trivial; unfold m; lia).
      reflexivity.
    + intros i c1 Hi Hc1. apply in_seq in Hi.
      specialize (Hmin c1 Hc1). unfold m in Hi. lia.
  - unfold row_int.
    replace (Z.of_nat (length (snd cl)) <? 0)%Z with false
      by (symmetry; apply Z.ltb_ge; lia).
    replace (Z.of_nat (num_rows (DataFrame_init d))
             <=? Z.of_nat (length (snd cl)))%Z with false
      by (symmetry; apply Z.leb_gt; lia).
    cbn [orb]. rewrite Nat2Z.id.
    apply (row_dict_short d _ cl); trivial.
Qed.

Lemma short_column_raises_witness :
  filter (DataFrame_init ex_ragged) (fun _ => false) = Raise IndexError /\
  row_int (DataFrame_init ex_ragged) 1 = Raise IndexError.
Proof.
  destruct (short_column_raises ex_ragged (VText (str "v"), [VInt 10]) eq_refl)
    as [Hf Hr].
  - simpl. auto.
  - simpl. lia.
  - split; [apply Hf|exact Hr].
Defined.

(** ** [read_csv] on a regular file *)

Lemma search_total : forall s, exists m, search pattern false s = Some m.
Proof.
  induction s as [|a s IH].
  - eexists. reflexivity.
  - cbn [search]. destruct (match_here pattern false (a :: s)) as [m|];
      eauto.
Qed.

Lemma raw_fields_nonempty line : raw_fields line <> [].
Proof.
  unfold raw_fields, finditer.
  replace (2 * length line + 2) with (S (2 * length line + 1)) by lia.
  cbn [finditer_loop]. destruct (search_total line) as [m ->].
  discriminate.
Qed.

Lemma length_line_values i line :
  length (line_values i line) = length (raw_fields line).
Proof.
  unfold line_values. rewrite length_map, length_combine, length_seq. lia.
Qed.

Lemma filter_true_In {A} (p : A -> bool) (l : list A) :
  (forall x, In x l -> p x = true) -> List.filter p l = l.
Proof.
  induction l as [|a l IH]; trivial. intros H.
  simpl. rewrite (H a) by (simpl; auto). f_equal.
  apply IH. intros; apply H; simpl; auto.
Qed.

Lemma first_seen_id ks : keys_distinct ks -> first_seen ks = ks.
Proof.
  induction ks as [|k ks IH]; trivial.
  intros [Hk Hd]. cbn [first_seen]. rewrite IH by trivial. f_equal.
  apply filter_true_In. intros x Hx.
  rewrite key_match_sym, (Hk x Hx). trivial.
Qed.

Lemma cells_for_none h hv :
  (forall p, In p hv -> key_match h (fst p) = false) -> cells_for h hv = [].
Proof.
  induction hv as [|p hv IH]; trivial. intros H.
  unfold cells_for. simpl. rewrite (H p) by (simpl; auto).
  apply IH. intros; apply H; simpl; auto.
Qed.

Lemma cells_for_distinct header : forall vals j h,
  keys_distinct header -> nth_error header j = Some h ->
  length header <= length vals ->
  cells_for h (combine header vals) = [nth j vals (VInt 0)].
Proof.
  induction header as [|a hs IH]; intros vals j h Hd Hj Hlen.
  - destruct j; discriminate.
  - destruct vals as [|v vs]; [simpl in Hlen; lia|].
    destruct Hd as [Ha Hd]. simpl in Hlen.
    destruct j as [|j]; simpl in Hj.
    + injection Hj as ->. unfold cells_for. cbn [combine List.filter fst].
      rewrite key_match_refl. cbn [map snd nth]. f_equal.
      apply cells_for_none. intros p Hp.
      rewrite key_match_sym. apply Ha. apply (combine_fst_In _ _ _ Hp).
    + unfold cells_for. cbn [combine List.filter fst].
      rewrite (Ha h) by (apply (nth_error_In _ _ Hj)).
      cbn [nth]. apply (IH vs j h); trivial. lia.
Qed.

Lemma flat_map_single {A B} (f : A -> list B) (g : A -> B) (l : list A) :
  (forall x, In x l -> f x = [g x]) -> flat_map f l = map g l.
Proof.
  induction l as [|a l IH]; trivial. intros H.
  simpl. rewrite (H a) by (simpl; auto). simpl. f_equal.
  apply IH. intros; apply H; simpl; auto.
Qed.

(** [read_csv] on a regular file: when the first line is not empty, the
    names of its header are pairwise different and no data row has fewer
    values than the header, the table has the names of the header for
    its columns, in their order, one row per line that is not empty
    after the first, every column as long as [num_rows], pairwise
    different keys, and in the column of the name at place [j] the value
    at place [j] of every data row; values beyond the header are
    dropped. *)
Theorem read_csv_regular (l0 : pystr) (rest : list pystr) (sep : pystr) :
  rstrip_nl l0 <> [] ->
  keys_distinct (line_values 0 (rstrip_nl l0)) ->
  (forall vals, In vals (data_rows 1 rest) ->
     length (line_values 0 (rstrip_nl l0)) <= length vals) ->
  exists df,
    read_csv (l0 :: rest) sep = Ok df /\
    columns df = line_values 0 (rstrip_nl l0) /\
    num_rows df = length (data_rows 1 rest) /\
    alignedb df = true /\
    dict_wf (data df) = true /\
    forall j h, nth_error (line_values 0 (rstrip_nl l0)) j = Some h ->
      DataFrame_getitem df h
      = Ok (map (fun vals => nth j vals (VInt 0)) (data_rows 1 rest)).
Proof.
  intros Hne Hd Hlen. rewrite read_csv_spec by trivial.
  set (header := line_values 0 (rstrip_nl l0)) in *.
  set (rows := data_rows 1 rest) in *.
  unfold csv_columns. rewrite first_seen_id by trivial.
  assert (Hcol : forall j h, nth_error header j = Some h ->
            flat_map (fun vals => cells_for h (combine header vals)) rows
            = map (fun vals => nth j vals (VInt 0)) rows).
  { intros j h Hj. apply flat_map_single. intros vals Hv.
    apply cells_for_distinct; auto. }
  eexists. split; [reflexivity|]. split; [|split; [|split; [|split]]].
  - cbn [columns DataFrame_init]. unfold keyed. rewrite map_map. apply map_id.
  - destruct header as [|h hs] eqn:Eh.
    + exfalso. apply (raw_fields_nonempty (rstrip_nl l0)).
      apply length_zero_iff_nil. rewrite <- length_line_values with (i := 0).
      fold header. rewrite Eh. trivial.
    + cbn [keyed map num_rows DataFrame_init].
      rewrite (Hcol 0 h eq_refl). apply length_map.
  - apply aligned_lengths. intros cl Hcl.
    assert (Hall : forall cl', In cl' (data (DataFrame_init
              (keyed (fun k => flat_map
                        (fun vals => cells_for k (combine header vals)) rows)
                     header))) -> length (snd cl') = length rows).
    { intros cl' H. cbn [data DataFrame_init] in H.
      apply in_map_iff in H as (k & <- & Hk). cbn [snd].
      apply In_nth_error in Hk as [j Hj].
      rewrite (Hcol j k Hj). apply length_map. }
    cbn [data DataFrame_init] in Hall.
    rewrite (Hall cl Hcl).
    destruct header as [|h hs]; [destruct Hcl|].
    cbn [keyed map num_rows DataFrame_init]. symmetry.
    apply (Hall (h, _)). simpl; auto.
  - apply dict_wf_distinct. cbn [data DataFrame_init]. unfold keyed.
    rewrite map_map, map_id. exact Hd.
  - intros j h Hj. unfold DataFrame_getitem, getitem.
    cbn [data DataFrame_init].
    rewrite (dict_get_keyed _ header h h); trivial.
    + rewrite (Hcol j h Hj). trivial.
    + apply (nth_error_In _ _ Hj).
    + apply key_match_refl.
Qed.

Lemma read_csv_regular_witness :
  exists df,
    read_csv [str "a,b," ++ nl; str "1,2,3,4" ++ nl; nl; str "5,6," ++ nl]
             default_sep = Ok df /\
    num_rows df = 2 /\
    DataFrame_getitem df (VText (str "b")) = Ok [VInt 2; VInt 6].
Proof.
  destruct (read_csv_regular (str "a,b," ++ nl)
              [str "1,2,3,4" ++ nl; nl; str "5,6," ++ nl] default_sep)
    as (df & E & _ & Hn & _ & _ & Hget).
  - vm_compute. discriminate.
  - vm_compute. repeat split; intros k' H; repeat destruct H as [<-|H];
      try reflexivity; destruct H.
  - intros vals H. vm_compute in H.
    repeat destruct H as [<-|H]; try (vm_compute; lia).
  - exists df. split; [exact E|]. split; [exact Hn|].
    apply (Hget 1 (VText (str "b"))). reflexivity.
Defined.

(** ** Line ends *)

Lemma read_line_rstrip st i l l' :
  rstrip_nl l = rstrip_nl l' -> read_line st (i, l) = read_line st (i, l').
Proof. intros H. unfold read_line. cbn [fst snd]. rewrite H. trivial. Qed.

Lemma read_lines_rstrip ls ls' :
  Forall2 (fun l l' => rstrip_nl l = rstrip_nl l') ls ls' ->
  forall a st,
    for_each (combine (seq a (length ls)) ls) read_line st
    = for_each (combine (seq a (length ls')) ls') read_line st.
Proof.
  induction 1 as [|l l' ls ls' Hl _ IH]; intros a st; trivial.
  cbn [length seq combine for_each].
  rewrite (read_line_rstrip st a l l' Hl).
  destruct (read_line st (a, l')); cbn [bind]; trivial.
Qed.

Lemma rstrip_nl_crlf l : rstrip_nl (l ++ [cr_c; lf_c]) = rstrip_nl l.
Proof. unfold rstrip_nl. rewrite rev_app_distr. reflexivity. Qed.

Lemma rstrip_nl_lf l : rstrip_nl (l ++ nl) = rstrip_nl l.
Proof. unfold rstrip_nl. rewrite rev_app_distr. reflexivity. Qed.

(** [read_csv] sees of a line only what is left once the LF and CR
    characters at its end are removed: two files whose lines agree up to
    those characters are read the same, so a file with CR LF line ends
    gives what the file with LF line ends gives. *)
Theorem read_csv_line_ends (ls ls' : list pystr) (sep sep' : pystr) :
  Forall2 (fun l l' => rstrip_nl l = rstrip_nl l') ls ls' ->
  read_csv ls sep = read_csv ls' sep'.
Proof.
  intros H. unfold read_csv. rewrite (read_lines_rstrip ls ls' H). trivial.
Qed.

Lemma read_csv_line_ends_witness :
  read_csv ex_crlf_lines default_sep = read_csv ex_lf_lines default_sep.
Proof.
  apply read_csv_line_ends.
  repeat constructor.
Defined.

(** ** What the tokenizer returns on any line *)

Lemma rstrip_prefix t : exists ws, t = rstrip t ++ ws.
Proof.
  unfold rstrip. exists (rev (lead_space (rev t))).
  rewrite <- rev_app_distr, lead_space_lstrip, rev_involutive. trivial.
Qed.

Lemma strip_trimmed s :
  not_at is_space (strip s) /\ not_at is_space (rev (strip s)).
Proof.
  unfold strip. split.
  - pose proof (lstrip_not_space s) as H.
    destruct (rstrip_prefix (lstrip s)) as [ws E].
    destruct (rstrip (lstrip s)) as [|a r]; [exact I|].
    rewrite E in H. exact H.
  - unfold rstrip. rewrite rev_involutive. apply lstrip_not_space.
Qed.

(** Whatever the line is, the tokenizer returns at least one field, and
    no field starts or ends with a white space character. *)
Theorem raw_fields_trimmed (line : pystr) :
  raw_fields line <> [] /\
  forall f, In f (raw_fields line) ->
    not_at is_space f /\ not_at is_space (rev f).
Proof.
  split; [apply raw_fields_nonempty|].
  intros f Hf. unfold raw_fields in Hf.
  apply in_map_iff in Hf as (m & <- & _). apply strip_trimmed.
Qed.

(** ** Quotes and [convert_value] *)

Lemma strip_quote_pair_quoted t :
  strip_quote_pair (quote_c :: t ++ [quote_c]) = t.
Proof.
  unfold strip_quote_pair, quoted_pair, slice_1_m1.
  change (quote_c :: t ++ [quote_c]) with ((quote_c :: t) ++ [quote_c]).
  rewrite last_last, length_app. cbn [hd length tl]. rewrite Nat.add_1_r.
  cbn [Nat.leb andb]. rewrite is_quote_quote. cbn [app tl andb].
  apply removelast_last.
Qed.

(** One pair of double quotes around a text is transparent for
    [convert_value]: unless the text is itself wrapped in a pair of
    quotes, the quoted text gives the value the bare text gives, so a
    number in quotes becomes a number. *)
Theorem convert_value_quote_pair (oid : objid) (t : pystr) :
  quoted_pair t = false ->
  convert_value oid (quote_c :: t ++ [quote_c]) = convert_value oid t.
Proof.
  intros H. unfold convert_value at 1. cbn [app].
  rewrite strip_quote_pair_quoted.
  destruct t as [|a r]; [reflexivity|].
  unfold convert_value, strip_quote_pair. rewrite H. trivial.
Qed.

Lemma convert_value_quote_pair_witness :
  convert_value (0, 0) (quote_c :: str "12" ++ [quote_c])
  = convert_value (0, 0) (str "12").
Proof.
  apply (convert_value_quote_pair (0, 0) (str "12")). reflexivity.
Defined.

(** ** The values of a line of well-formed fields *)

(** On a line of well-formed fields the tokenizer returns the value of
    every field, in the order of the line: the text of an unquoted field
    or the content of a quoted one, in which a comma does not end the
    field and two double quotes stand for one, without the white space at
    its ends; one more empty value follows unless the line ends with an
    empty field. *)
Theorem tokenizer_fields (x : csv_field) (xs : list csv_field) :
  forallb field_ok (x :: xs) = true ->
  raw_fields (line_src x xs) = line_tokens x xs.
Proof.
  apply raw_fields_line.
Qed.

Lemma tokenizer_fields_witness :
  raw_fields (str " x ," ++ quoted (str "a,b") ++ str " ,")
  = [str "x"; str "a,b"; []].
Proof.
  exact (tokenizer_fields (Unquoted (str " x "))
           [Quoted [] (str "a,b") (str " "); Unquoted []] eq_refl).
Defined.

Lemma quoted_field_at pre ws1 c ws2 tail :
  forallb field_ok pre = true ->
  forallb is_space ws1 = true -> forallb is_space ws2 = true ->
  line_tail tail ->
  nth_error (raw_fields (fields_src pre ++ ws1 ++ quoted c ++ ws2 ++ tail))
            (length pre)
  = Some (strip c).
Proof.
  intros Hok H1 H2 Htail. unfold raw_fields, finditer.
  pose proof (length_fields_src pre) as Hpre.
  rewrite tokens_prefix; trivial; [|rewrite length_app; lia].
  rewrite nth_error_app2, length_map, Nat.sub_diag by (rewrite length_map; lia).
  destruct (match_field (Quoted ws1 c ws2) tail) as (m & Hm & Hv & _);
    [simpl; rewrite H1, H2; trivial | trivial |].
  cbn [field_src] in Hm. rewrite <- !app_assoc in Hm.
  rewrite length_app.
  destruct (2 * (length (fields_src pre)
                 + length (ws1 ++ quoted c ++ ws2 ++ tail)) + 2 - length pre)
    as [|fuel] eqn:E; [lia|].
  cbn [finditer_loop]. rewrite (search_here _ _ _ _ Hm).
  simpl. rewrite Hv. trivial.
Qed.

Lemma nth_error_combine_seq {A} (l : list A) : forall a j t,
  nth_error l j = Some t ->
  nth_error (combine (seq a (length l)) l) j = Some (a + j, t).
Proof.
  induction l as [|b l IH]; intros a j t H; [destruct j; discriminate|].
  destruct j as [|j]; simpl in *.
  - injection H as ->. rewrite Nat.add_0_r. trivial.
  - rewrite (IH (S a) j t H). f_equal. f_equal. lia.
Qed.

(** Quotes do not keep a field from being converted: the value that
    [read_csv] stores for a quoted field is [convert_value] of its
    trimmed content, so a number in quotes is stored as a number. *)
Theorem quoted_field_converted (i : nat) (pre : list csv_field)
    (ws1 c ws2 tail : pystr) :
  forallb field_ok pre = true ->
  forallb is_space ws1 = true -> forallb is_space ws2 = true ->
  line_tail tail ->
  nth_error (line_values i (fields_src pre ++ ws1 ++ quoted c ++ ws2 ++ tail))
            (length pre)
  = Some (convert_value (i, length pre) (strip c)).
Proof.
  intros Hok H1 H2 Htail. unfold line_values.
  rewrite nth_error_map.
  rewrite (nth_error_combine_seq _ 0 (length pre) (strip c))
    by (apply quoted_field_at; trivial).
  reflexivity.
Qed.

Lemma quoted_field_converted_witness :
  nth_error (line_values 1 (str "x," ++ quoted (str "12") ++ str ",y")) 1
  = Some (VInt 12).
Proof.
  apply (quoted_field_converted 1 [Unquoted (str "x")] [] (str "12") []
           (str ",y") eq_refl eq_refl eq_refl).
  right. eexists. reflexivity.
Defined.

(** ** Selecting twice *)

(** Selecting from a selection is selecting from the original: when the
    names [a] are columns and the names [b] are among them, [select]
    with [a] and then with [b] returns what [select] with [b] returns. *)
Theorem select_twice (d : pydict (list Value)) (a b : list Value) :
  (forall c, In c a -> dict_in d c = true) -> incl b a ->
  exists df1,
    select (DataFrame_init d) a = Ok df1 /\
    select df1 b = select (DataFrame_init d) b.
Proof.
  intros Ha Hb. rewrite (select_keyed d a Ha).
  eexists. split; [reflexivity|].
  assert (Hget : forall c, In c b ->
            dict_get (keyed (column_of d) (first_seen a)) c = dict_get d c).
  { intros c Hc. apply dict_get_selected; auto. }
  rewrite select_keyed, (select_keyed d b); auto.
  - do 2 f_equal. unfold keyed. apply map_ext_in. intros k Hk.
    f_equal. unfold column_of. rewrite Hget; trivial.
    apply first_seen_In. trivial.
  - intros c Hc. unfold dict_in. rewrite (Hget c Hc).
    specialize (Ha c (Hb c Hc)). exact Ha.
Qed.

Lemma select_twice_witness :
  exists df1,
    select (DataFrame_init ex_data) [VText (str "v"); VText (str "k")]
    = Ok df1 /\
    select df1 [VText (str "k")]
    = select (DataFrame_init ex_data) [VText (str "k")].
Proof.
  apply (select_twice ex_data [VText (str "v"); VText (str "k")]
           [VText (str "k")]).
  - intros c [<-|[<-|[]]]; reflexivity.
  - intros c [<-|[]]. simpl. auto.
Defined.

(** ** A double quote that is not closed *)

(** A star of a class fails when the rest of the pattern fails after
    every run of the class. *)
Lemma star_cls_none {R} p n : forall s c (k : cont R),
  (forall s1 s2, s = s1 ++ s2 -> forallb p s1 = true -> k s2 c = None) ->
  star_loop (rmatch (Cls p)) n s c k = None.
Proof.
  induction n as [|n IH]; intros s c k H.
  - simpl. apply (H [] s); trivial.
  - cbn [star_loop]. rewrite orelse_r; [apply (H [] s); trivial|].
    destruct s as [|a t]; trivial. cbn [rmatch].
    destruct (p a) eqn:Ea; trivial.
    rewrite length_ltb_cons. apply IH.
    intros s1 s2 -> Hs1. apply (H (a :: s1) s2); trivial.
    simpl. rewrite Ea. trivial.
Qed.

Lemma star_quoted_body_none {R} n : forall s c (k : cont R),
  forallb (fun a => negb (is_quote a)) s = true ->
  (forall s1 s2, s = s1 ++ s2 -> k s2 c = None) ->
  star_loop (rmatch quoted_body) n s c k = None.
Proof.
  induction n as [|n IH]; intros s c k Hs H.
  - simpl. apply (H [] s); trivial.
  - cbn [star_loop]. rewrite orelse_r; [apply (H [] s); trivial|].
    destruct s as [|a t]; trivial.
    simpl in Hs. apply andb_true_iff in Hs as [Ha Ht].
    apply negb_true_iff in Ha.
    unfold quoted_body. rewrite rmatch_Alt. cbn [rmatch]. rewrite Ha.
    cbn [negb]. rewrite length_ltb_cons. rewrite IH; trivial.
    intros s1 s2 ->. apply (H (a :: s1) s2). trivial.
Qed.

Section Unclosed.
Variable g : pystr.
Hypothesis Hg : forallb (fun a => negb (is_quote a)) g = true.

Lemma split_before_quote (p : ascii -> bool) :
  p quote_c = false ->
  forall s1 f s2,
    f ++ quote_c :: g = s1 ++ s2 -> forallb p s1 = true ->
    exists f2, f = s1 ++ f2 /\ s2 = f2 ++ quote_c :: g.
Proof.
  intros Hp. induction s1 as [|a s1 IH]; intros f s2 E H.
  - exists f. auto.
  - simpl in H. apply andb_true_iff in H as [Ha H].
    destruct f as [|b f]; simpl in E; injection E as Ea E.
    + subst a. congruence.
    + subst b. destruct (IH f s2 E H) as (f2 & -> & ->). exists f2. auto.
Qed.

Lemma end_fails {R} f2 c (k : cont R) :
  forallb unquoted_char f2 = true ->
  rmatch (Alt (Cls is_comma) Eos) (f2 ++ quote_c :: g) c k = None.
Proof.
  intros H. rewrite rmatch_Alt.
  destruct f2 as [|a f2]; cbn [app rmatch].
  - destruct g; reflexivity.
  - simpl in H. apply andb_true_iff in H as [Ha _].
    unfold unquoted_char in Ha. apply negb_true_iff, orb_false_iff in Ha.
    destruct Ha as [_ ->]. destruct f2; reflexivity.
Qed.

Lemma rest_fails {R} f2 c (k : cont R) :
  forallb unquoted_char f2 = true ->
  rmatch (Cat (Star (Cls is_space)) (Alt (Cls is_comma) Eos))
         (f2 ++ quote_c :: g) c k = None.
Proof.
  intros H. rewrite rmatch_Cat, rmatch_Star. apply star_cls_none.
  intros s1 s2 E Hs1.
  destruct (split_before_quote is_space eq_refl s1 f2 s2 E Hs1)
    as (f3 & -> & ->).
  apply end_fails. rewrite forallb_app in H.
  apply andb_true_iff in H as [_ H]. exact H.
Qed.

Lemma unquoted_alt_fails {R} f2 c (k : cont R) :
  forallb unquoted_char f2 = true ->
  rmatch (Cat (Grp 2 (Star (Cls unquoted_char)))
              (Cat (Star (Cls is_space)) (Alt (Cls is_comma) Eos)))
         (f2 ++ quote_c :: g) c k = None.
Proof.
  intros H. rewrite rmatch_Cat, rmatch_Grp, rmatch_Star.
  apply star_cls_none. intros s1 s2 E Hs1.
  destruct (split_before_quote unquoted_char eq_refl s1 f2 s2 E Hs1)
    as (f3 & -> & ->).
  apply rest_fails. rewrite forallb_app in H.
  apply andb_true_iff in H as [_ H]. exact H.
Qed.

Lemma quoted_alt_fails {R} f2 c (k : cont R) :
  forallb unquoted_char f2 = true ->
  rmatch (Cat (Cls is_quote) (Cat (Grp 1 (Star quoted_body)) (Cls is_quote)))
         (f2 ++ quote_c :: g) c k = None.
Proof.
  intros H. rewrite rmatch_Cat.
  destruct f2 as [|a f2]; cbn [app].
  - cbn [rmatch]. rewrite is_quote_quote.
    change (rmatch (Cat (Grp 1 (Star quoted_body)) (Cls is_quote)) g c k
            = None).
    rewrite rmatch_Cat, rmatch_Grp, rmatch_Star.
    apply star_quoted_body_none; trivial.
    intros s1 s2 E. apply rmatch_Cls_fail.
    rewrite E, forallb_app in Hg. apply andb_true_iff in Hg as [_ H2].
    destruct s2 as [|b s2]; [exact I|].
    simpl in H2. apply andb_true_iff in H2 as [Hb _].
    apply negb_true_iff in Hb. exact Hb.
  - apply rmatch_Cls_fail. simpl in H. apply andb_true_iff in H as [Ha _].
    apply unquoted_not_quote. exact Ha.
Qed.

(** No match of [pattern] starts in the text before the quote or at the
    quote. *)
Lemma match_here_unclosed f adv :
  forallb unquoted_char f = true ->
  match_here pattern adv (f ++ quote_c :: g) = None.
Proof.
  intros H. unfold match_here, pattern. rewrite rmatch_Cat, rmatch_Star.
  apply star_cls_none. intros s1 s2 E Hs1.
  destruct (split_before_quote is_space eq_refl s1 f s2 E Hs1)
    as (f3 & -> & ->).
  rewrite forallb_app in H. apply andb_true_iff in H as [_ H].
  rewrite rmatch_Cat, rmatch_Alt.
  rewrite orelse_r.
  - rewrite <- rmatch_Cat. apply unquoted_alt_fails. exact H.
  - apply quoted_alt_fails. exact H.
Qed.

Lemma search_unclosed f : forall adv,
  forallb unquoted_char f = true ->
  search pattern adv (f ++ quote_c :: g) = search pattern false g.
Proof.
  induction f as [|a f IH]; intros adv H.
  - pose proof (match_here_unclosed [] adv H) as E. cbn [app] in *.
    cbn [search]. rewrite E. trivial.
  - pose proof (match_here_unclosed (a :: f) adv H) as E. cbn [app] in *.
    cbn [search]. rewrite E. apply IH.
    simpl in H. apply andb_true_iff in H as [_ H]. exact H.
Qed.
End Unclosed.

Lemma finditer_loop_search r n adv s adv' s' :
  search r adv s = search r adv' s' ->
  finditer_loop (S n) r adv s = finditer_loop (S n) r adv' s'.
Proof. intros H. cbn [finditer_loop]. rewrite H. trivial. Qed.

(** A double quote that is not closed: when a field has a double quote
    after text without quote or comma and no double quote follows on the
    line, the tokenizer drops the quote and the text before it back to
    the last comma, and goes on with what follows the quote. *)
Theorem unclosed_quote_drops_text (pre : list csv_field) (f g : pystr) :
  forallb field_ok pre = true ->
  forallb unquoted_char f = true ->
  forallb (fun a => negb (is_quote a)) g = true ->
  raw_fields (fields_src pre ++ f ++ quote_c :: g)
  = map field_val pre ++ raw_fields g.
Proof.
  intros Hpre Hf Hg. unfold raw_fields at 1. unfold finditer.
  pose proof (length_fields_src pre) as Hlen.
  rewrite tokens_prefix; trivial; [|rewrite length_app; lia].
  f_equal. unfold raw_fields. f_equal.
  rewrite !length_app. cbn [length].
  destruct (2 * (length (fields_src pre) + (length f + S (length g))) + 2
            - length pre) as [|n] eqn:E; [lia|].
  rewrite (finditer_loop_search pattern n false (f ++ quote_c :: g) false g)
    by (apply search_unclosed; trivial).
  apply finditer_fuel_enough. lia.
Qed.

Lemma unclosed_quote_drops_text_witness :
  raw_fields (str "x,ab" ++ quote_c :: str "cd,e")
  = [str "x"; str "cd"; str "e"; []].
Proof.
  exact (unclosed_quote_drops_text [Unquoted (str "x")] (str "ab")
           (str "cd,e") eq_refl eq_refl eq_refl).
Defined.

(** ** Examples *)

Example convert_value_examples :
  convert_value (0, 0) (str "123") = VInt 123 /\
  convert_value (0, 0) (str "1.5")
  = VFloat (FFinite false 6755399441055744 (-52)) /\
  convert_value (0, 0) [] = VText [] /\
  convert_value (0, 0) (str "abc") = VText (str "abc") /\
  convert_value (0, 0) (str "1_000") = VInt 1000 /\
  convert_value (0, 0) (str "1e3")
  = VFloat (FFinite false 8796093022208000 (-43)) /\
  convert_value (0, 0) (str "inf") = VFloat (FInf false) /\
  convert_value (0, 0) (str "nan") = VFloat (FNaN false (0, 0)) /\
  convert_value (0, 0) (quote_c :: str "12" ++ [quote_c]) = VInt 12.
Proof. repeat split; vm_compute; reflexivity. Qed.

Example raw_fields_examples :
  raw_fields (str "a, b c ,,d") = [str "a"; str "b c"; []; str "d"; []] /\
  raw_fields (str "hello," ++ quoted (str "wor" ++ [quote_c] ++ str "ld"))
  = [str "hello"; str "wor" ++ [quote_c] ++ str "ld"; []] /\
  raw_fields (str "a" ++ [quote_c] ++ str "b") = [str "b"; []].
Proof. repeat split; vm_compute; reflexivity. Qed.

Example read_csv_example :
  read_csv [str "a,b" ++ nl; str "1,2.5" ++ nl;
            str "hello," ++ quoted (str "wor" ++ [quote_c] ++ str "ld")]
           default_sep
  = Ok (DataFrame_init
          [(VText (str "a"), [VInt 1; VText (str "hello")]);
           (VText (str "b"),
            [VFloat (FFinite false 5629499534213120 (-51));
             VText (str "wor" ++ [quote_c] ++ str "ld")]);
           (VText [], [VText []; VText []])]).
Proof. vm_compute. reflexivity. Qed.

Example group_by_example :
  group_by (DataFrame_init ex_data) (VText (str "k"))
  = Ok [(VInt 1, DataFrame_init [(VText (str "k"), [VInt 1; VInt 1]);
                                 (VText (str "v"), [VInt 10; VInt 30])]);
        (VInt 2, DataFrame_init [(VText (str "k"), [VInt 2]);
                                 (VText (str "v"), [VInt 20])]);
        (VInt 3, DataFrame_init [(VText (str "k"), [VInt 3]);
                                 (VText (str "v"), [VInt 40])])].
Proof. vm_compute. reflexivity. Qed.
